(** * Distinguished-Name parsing and rendering of [ncrypt/dlggpgme.c]

    A shallow embedding of [print_utf8], [print_dn_part], [print_dn_parts],
    [parse_dn_part], [parse_dn] and [parse_and_print_user_id], and the
    properties of the DN parser and renderer that hold or fail on it.

    Conventions.
    - A [char] is an [ascii].  A C string is the [string] of its characters
      in front of the terminating NUL, none of which is NUL itself; a pointer
      into it is the [string] of the characters that remain, so the empty
      string is a pointer at the terminator.  Stepping over the terminator
      and reading there is an out-of-bounds read, and a function that can do
      so returns [OutOfBounds].
    - A buffer that the parser fills (a decoded value) may hold NUL bytes;
      whoever reads it as a C string sees it through [cstr].
    - A [FILE *] opened for writing is the string written so far.
    - [mutt_mem_malloc] and [FREE] act on an explicit [Heap] that records
      which blocks are live.
    - The character classes of <ctype.h> are those of the C locale; they
      are false on the bytes above 127. *)

From Stdlib Require Import Strings.String Strings.Ascii Lists.List Arith.Arith Bool.Bool Lia.
Import ListNotations.

Local Open Scope nat_scope.
Local Open Scope string_scope.
Local Open Scope char_scope.

(** ** Outcome of a run *)

(** [Ret a]: the C code ran to its end and produced [a];
    [OutOfBounds]: it read a character beyond the terminating NUL;
    [OutOfFuel]: the model's loop bound was reached (shown never to
    happen for [parse_dn]). *)
Inductive run (A : Type) : Type :=
| Ret (a : A)
| OutOfBounds
| OutOfFuel.

Arguments Ret {A} a.
Arguments OutOfBounds {A}.
Arguments OutOfFuel {A}.

Definition bind {A B : Type} (m : run A) (f : A -> run B) : run B :=
  match m with
  | Ret a => f a
  | OutOfBounds => OutOfBounds
  | OutOfFuel => OutOfFuel
  end.

Notation "x <- m ;; k" := (bind m (fun x => k))
  (at level 61, m at next level, right associativity).
Notation "' p <- m ;; k" := (bind m (fun x => match x with p => k end))
  (at level 61, p pattern, m at next level, right associativity).

(** ** Characters *)

Definition dquote : ascii := "034".

Definition in_range (lo hi : nat) (c : ascii) : bool :=
  Nat.leb lo (nat_of_ascii c) && Nat.leb (nat_of_ascii c) hi.

Definition isdigit (c : ascii) : bool := in_range 48 57 c.

Definition isupper (c : ascii) : bool := in_range 65 90 c.

Definition islower (c : ascii) : bool := in_range 97 122 c.

Definition isalnum (c : ascii) : bool := isdigit c || isupper c || islower c.

Definition isxdigit (c : ascii) : bool :=
  isdigit c || in_range 65 70 c || in_range 97 102 c.

(** Value of a hexadecimal digit (0 for any other character). *)
Definition hexval (c : ascii) : nat :=
  let n := nat_of_ascii c in
  if isdigit c then n - 48
  else if in_range 65 70 c then n - 55
  else if in_range 97 102 c then n - 87
  else 0.

(** [sscanf(s, "%2hhx", p)] on an input whose first character is a
    hexadecimal digit: at most two digits are converted and the conversion
    stops at the first character that is not one.  [None] is a matching
    failure, in which nothing is stored; both call sites below only reach
    [sscanf] on a hexadecimal digit. *)
Definition sscanf_2hhx (s : string) : option ascii :=
  match s with
  | String c1 r =>
      if isxdigit c1 then
        match r with
        | String c2 _ =>
            if isxdigit c2 then Some (ascii_of_nat (16 * hexval c1 + hexval c2))
            else Some (ascii_of_nat (hexval c1))
        | EmptyString => Some (ascii_of_nat (hexval c1))
        end
      else None
  | EmptyString => None
  end.

(** The characters that end a value and that a backslash may escape:
    [, = + < > # ;]. *)
Definition is_delim (c : ascii) : bool :=
  (c =? ",") || (c =? "=") || (c =? "+") || (c =? "<") || (c =? ">")
  || (c =? "#") || (c =? ";").

(** The characters accepted after a backslash: the delimiters, the
    backslash, the double quote and the space. *)
Definition is_escapable (c : ascii) : bool :=
  is_delim c || (c =? "\") || (c =? dquote) || (c =? " ").

(** [s[0]]: the character a pointer is at, NUL at the terminator. *)
Definition peek (s : string) : ascii :=
  match s with
  | String c _ => c
  | EmptyString => "000"
  end.

(** [s + 1] for a pointer that is not at the terminator. *)
Definition next (s : string) : string :=
  match s with
  | String _ r => r
  | EmptyString => EmptyString
  end.

(** [while (str[0] == ' ') str++;] *)
Fixpoint skip_spaces (str : string) : string :=
  match str with
  | String c r => if c =? " " then skip_spaces r else str
  | EmptyString => str
  end.

(** [strlen]-bounded view of a buffer: the characters before its first NUL. *)
Fixpoint cstr (s : string) : string :=
  match s with
  | String c r => if c =? "000" then EmptyString else String c (cstr r)
  | EmptyString => EmptyString
  end.

(** ** The heap *)

Abbreviation addr := nat (only parsing).

Record Heap : Type := mkHeap { brk : addr; live : list addr }.

Definition empty_heap : Heap := mkHeap 0 [].

(** [mutt_mem_malloc]: a fresh block. *)
Definition mutt_mem_malloc (h : Heap) : addr * Heap :=
  (brk h, mkHeap (S (brk h)) (brk h :: live h)).

(** An allocated character buffer: its block and its contents. *)
Record Buf : Type := mkBuf { buf_addr : addr; buf_str : string }.

(** [FREE(&p)]: releases the block when [p] is not NULL. *)
Definition FREE (p : option addr) (h : Heap) : Heap :=
  match p with
  | Some a => mkHeap (brk h) (remove Nat.eq_dec a (live h))
  | None => h
  end.

(** [struct DnArray { char *key; char *value; }], [None] being NULL. *)
Record DnArray : Type := mkDn { key : option Buf; value : option Buf }.

Definition dn_null : DnArray := mkDn None None.

(** ** parse_dn_part *)

(** [for (s = ...; (s[0] != '\0') && (s[0] != '='); s++);] counts the
    characters stepped over and returns the final [s]. *)
Fixpoint skip_type (s : string) : nat * string :=
  match s with
  | String c r =>
      if c =? "=" then (0, s)
      else let (n, e) := skip_type r in (S n, e)
  | EmptyString => (0, s)
  end.

(** [for (s = str; isxdigit(s[0]); s++) s++;] returns [s - str] and [s].
    When the tested digit is the last character before the terminator the
    double increment steps over the NUL and the next test reads outside
    the string. *)
Fixpoint hex_run (s : string) : run (nat * string) :=
  match s with
  | String c r =>
      if isxdigit c then
        match r with
        | String _ r' => ' (n, e) <- hex_run r' ;; Ret (S (S n), e)
        | EmptyString => OutOfBounds
        end
      else Ret (0, s)
  | EmptyString => Ret (0, s)
  end.

(** [for (s1 = str; n; s1 += 2, n--) sscanf(s1, "%2hhx", p++);] *)
Fixpoint hex_fill (n : nat) (s1 : string) : run string :=
  match n with
  | 0 => Ret EmptyString
  | S n' =>
      match sscanf_2hhx s1, s1 with
      | Some b, String _ (String _ r) => p <- hex_fill n' r ;; Ret (String b p)
      | _, _ => OutOfBounds
      end
  end.

(** First pass over a quoted string: [for (n = 0, s = str; s[0]; s++) ...].
    [None] is [return NULL]; otherwise the length of the decoded value and
    the final [s]. *)
Fixpoint quoted_len (s : string) : option (nat * string) :=
  match s with
  | String c r =>
      if c =? "\" then
        match r with
        | String e r1 =>
            if is_escapable e then
              option_map (fun '(n, t) => (S n, t)) (quoted_len r1)
            else
              match r1 with
              | String e1 r2 =>
                  if isxdigit e && isxdigit e1 then
                    option_map (fun '(n, t) => (S n, t)) (quoted_len r2)
                  else None
              | EmptyString => None
              end
        | EmptyString => None
        end
      else if c =? dquote then None
      else if is_delim c then Some (0, s)
      else option_map (fun '(n, t) => (S n, t)) (quoted_len r)
  | EmptyString => Some (0, s)
  end.

(** Second pass: [for (s = str; n; s++, n--) ...] returns the bytes stored
    and the final [s]. *)
Fixpoint quoted_fill (n : nat) (s : string) : run (string * string) :=
  match n with
  | 0 => Ret (EmptyString, s)
  | S n' =>
      match s with
      | String c r =>
          if c =? "\" then
            match r with
            | String e r1 =>
                if isxdigit e then
                  match sscanf_2hhx r, r1 with
                  | Some b, String _ r2 =>
                      ' (p, t) <- quoted_fill n' r2 ;; Ret (String b p, t)
                  | _, _ => OutOfBounds
                  end
                else
                  ' (p, t) <- quoted_fill n' r1 ;; Ret (String e p, t)
            | EmptyString => OutOfBounds
            end
          else ' (p, t) <- quoted_fill n' r ;; Ret (String c p, t)
      | EmptyString => OutOfBounds
      end
  end.

(** The branch [/* regular v3 quoted string */]: both passes. *)
Definition quoted_string (str : string) : run (option (string * string)) :=
  match quoted_len str with
  | None => Ret None
  | Some (n, _) => ' (p, s) <- quoted_fill n str ;; Ret (Some (p, s))
  end.

(** [parse_dn_part(array, str)]: the returned pointer ([None] is NULL),
    the entry as the call leaves it, and the heap. *)
Definition parse_dn_part (array : DnArray) (str : string) (h : Heap)
  : run (option string * DnArray * Heap) :=
  match str with
  | EmptyString => OutOfBounds
  | String _ str_1 =>
      let (m, s) := skip_type str_1 in
      match s with
      | EmptyString => Ret (None, array, h)
      | String _ str1 =>
          let n := S m in
          if (n =? 0)%nat then Ret (None, array, h)
          else
            let (pk, h1) := mutt_mem_malloc h in
            let array1 := mkDn (Some (mkBuf pk (substring 0 n str))) (value array) in
            if peek str1 =? "#" then
              let str2 := next str1 in
              ' (n, s) <- hex_run str2 ;;
              if (n =? 0)%nat || Nat.odd n then Ret (None, array1, h1)
              else
                let n := n / 2 in
                let (pv, h2) := mutt_mem_malloc h1 in
                p <- hex_fill n str2 ;;
                Ret (Some s, mkDn (key array1) (Some (mkBuf pv p)), h2)
            else
              match quoted_len str1 with
              | None => Ret (None, array1, h1)
              | Some (n, _) =>
                  let (pv, h2) := mutt_mem_malloc h1 in
                  ' (p, s) <- quoted_fill n str1 ;;
                  Ret (Some s, mkDn (key array1) (Some (mkBuf pv p)), h2)
              end
      end
  end.

(** ** parse_dn *)

(** The loop under the [failure:] label: the [key] and the [value] of every
    entry below [arrayidx] are released. *)
Definition free_entries (array : list DnArray) (h : Heap) : Heap :=
  fold_left
    (fun h e => FREE (option_map buf_addr (value e))
                  (FREE (option_map buf_addr (key e)) h))
    array h.

(** The [while] loop of [parse_dn].  Its state is the array block,
    [arraysize], the entries written so far (their number is [arrayidx]) and
    the heap.  [fuel] bounds the number of iterations; every iteration
    consumes at least one character, so one more than the length of the
    string is enough. *)
Fixpoint parse_dn_loop (fuel : nat) (str : string) (a : addr) (arraysize : nat)
    (array : list DnArray) (h : Heap)
  : run (option (addr * list DnArray) * Heap) :=
  match fuel with
  | 0 => OutOfFuel
  | S fuel' =>
      match skip_spaces str with
      | EmptyString => Ret (Some (a, (array ++ [dn_null])%list), h)
      | String _ _ as str0 =>
          let '(a, arraysize, h) :=
            if Nat.leb arraysize (length array) then
              let (a2, h') := mutt_mem_malloc h in
              (a2, arraysize + 5, FREE (Some a) h')
            else (a, arraysize, h) in
          ' (ret, e, h) <- parse_dn_part dn_null str0 h ;;
          let array := (array ++ [e])%list in
          match ret with
          | None => Ret (None, FREE (Some a) (free_entries array h))
          | Some str1 =>
              match skip_spaces str1 with
              | EmptyString => parse_dn_loop fuel' EmptyString a arraysize array h
              | String c r =>
                  if (c =? ",") || (c =? ";") || (c =? "+") then
                    parse_dn_loop fuel' r a arraysize array h
                  else Ret (None, FREE (Some a) (free_entries array h))
              end
          end
      end
  end.

(** [parse_dn(str)]: the returned array ([None] is NULL), as its block and
    its entries with the sentinel, and the heap. *)
Definition parse_dn (str : string) (h : Heap)
  : run (option (addr * list DnArray) * Heap) :=
  let arraysize := 7 in
  let (array, h) := mutt_mem_malloc h in
  parse_dn_loop (S (String.length str)) str array arraysize [] h.

(** ** Attribute sequences *)

(** One attribute of a sequence: the strings its [key] and [value] point
    to. *)
Record Attr : Type := mkAttr { a_key : string; a_value : string }.

(** The entries of a [struct DnArray *] up to its sentinel (the first
    entry whose [key] is NULL). *)
Fixpoint dn_attrs (dn : list DnArray) : list Attr :=
  match dn with
  | mkDn (Some k) (Some v) :: dn' => mkAttr (buf_str k) (buf_str v) :: dn_attrs dn'
  | _ => []
  end.

(** What a caller of [parse_dn] sees: the attribute sequence, or NULL. *)
Definition parse_dn_result (str : string) : run (option (list Attr)) :=
  ' (r, _) <- parse_dn str empty_heap ;;
  Ret (option_map (fun '(_, dn) => dn_attrs dn) r).

(** ** Rendering *)

(** [strlen] *)
Definition strlen (s : string) : nat := String.length (cstr s).

(** [strcmp(a, b) == 0] *)
Definition strcmp_eq (a b : string) : bool := String.eqb (cstr a) (cstr b).

(** [fputs(s, fp)] *)
Definition fputs (s : string) (fp : string) : string := (fp ++ cstr s)%string.

(** [stdpart] of [print_dn_parts], without its NULL terminator. *)
Definition stdpart : list string :=
  ["CN"; "OU"; "O"; "STREET"; "L"; "ST"; "C"]%string.

(** The scan [for (i = 0; stdpart[i]; i++) if (strcmp(...) == 0) break;]
    followed by the test [!stdpart[i]]. *)
Definition not_stdpart (k : string) : bool :=
  negb (existsb (strcmp_eq k) stdpart).

Section Render.

(** [mutt_ch_convert_string(&tstr, "utf-8", c_charset, MUTT_ICONV_NO_FLAGS)]:
    the conversion of a UTF-8 string to the display character set, an
    external service of the program. *)
Variable mutt_ch_convert_string : string -> string.

(** [print_utf8(fp, buf, len)] *)
Definition print_utf8 (fp : string) (buf : string) (len : nat) : string :=
  let tstr := substring 0 len buf in
  fputs (mutt_ch_convert_string (cstr tstr)) fp.

(** The loop of [print_dn_part], from the entry [dn] on, with the current
    value of [any]. *)
Fixpoint print_dn_part_from (fp : string) (dn : list Attr) (k : string)
    (any : bool) : string * bool :=
  match dn with
  | [] => (fp, any)
  | a :: dn' =>
      if strcmp_eq (a_key a) k then
        let fp := if any then fputs " + " fp else fp in
        let fp := print_utf8 fp (a_value a) (strlen (a_value a)) in
        print_dn_part_from fp dn' k true
      else print_dn_part_from fp dn' k any
  end.

(** [print_dn_part(fp, dn, key)]: the file and the returned [any]. *)
Definition print_dn_part (fp : string) (dn : list Attr) (k : string)
  : string * bool :=
  print_dn_part_from fp dn k false.

(** First loop of [print_dn_parts], over the remaining [stdpart]. *)
Fixpoint print_std (fp : string) (dn : list Attr) (parts : list string)
    (any : bool) : string * bool :=
  match parts with
  | [] => (fp, any)
  | k :: parts' =>
      let fp := if any then fputs ", " fp else fp in
      let (fp, any) := print_dn_part fp dn k in
      print_std fp dn parts' any
  end.

(** Second loop of [print_dn_parts] ([/* now print the rest without any
    specific ordering */]), from the entry [dn] on; returns the file and
    [any2]. *)
Fixpoint print_rest (fp : string) (dn : list Attr) (any any2 : bool)
  : string * bool :=
  match dn with
  | [] => (fp, any2)
  | a :: dn' =>
      if not_stdpart (a_key a) then
        let fp := if any then fputs ", " fp else fp in
        let fp := if negb any2 then fputs "(" fp else fp in
        let (fp, any) := print_dn_part fp dn (a_key a) in
        print_rest fp dn' any true
      else print_rest fp dn' any any2
  end.

(** [print_dn_parts(fp, dn)] *)
Definition print_dn_parts (fp : string) (dn : list Attr) : string :=
  let (fp, any) := print_std fp dn stdpart false in
  let (fp, any2) := print_rest fp dn any false in
  if any2 then fputs ")" fp else fp.

(** What [print_dn_parts] writes to an empty file. *)
Definition render_dn (dn : list Attr) : string := print_dn_parts EmptyString dn.

(** [strchr(s, c)] as an offset into [s]; [None] is NULL. *)
Fixpoint strchr (s : string) (c : ascii) : option nat :=
  match s with
  | String d r => if d =? c then Some 0 else option_map S (strchr r c)
  | EmptyString => None
  end.

(** The entries in front of the sentinel, as the loop
    [for (int i = 0; dn[i].key; i++)] visits them. *)
Fixpoint dn_entries (dn : list DnArray) : list DnArray :=
  match dn with
  | e :: dn' => match key e with Some _ => e :: dn_entries dn' | None => [] end
  | [] => []
  end.

(** [parse_and_print_user_id(fp, userid)].  The messages are the untranslated
    ones; the scratch buffer that [print_utf8] allocates and frees again is
    left out of the heap. *)
Definition parse_and_print_user_id (fp : string) (userid : string) (h : Heap)
  : run (string * Heap) :=
  match userid with
  | String "<" r =>
      match strchr r ">" with
      | Some n => Ret (print_utf8 fp r n, h)
      | None => Ret (fp, h)
      end
  | String "(" _ =>
      Ret (fputs "[Can't display this user ID (unknown encoding)]" fp, h)
  | _ =>
      if negb (match userid with String c _ => isalnum c | EmptyString => false end)
      then Ret (fputs "[Can't display this user ID (invalid encoding)]" fp, h)
      else
        ' (r, h) <- parse_dn userid h ;;
        match r with
        | None => Ret (fputs "[Can't display this user ID (invalid DN)]" fp, h)
        | Some (a, dn) =>
            Ret (print_dn_parts fp (dn_attrs dn),
                 FREE (Some a) (free_entries (dn_entries dn) h))
        end
  end.

End Render.

(** The conversion when the display character set is UTF-8 itself: the
    text is written as it is. *)
Definition utf8_display (s : string) : string := s.

(** ** Definitions used to state the properties *)

(** Upper-case hexadecimal digit of a number below 16. *)
Definition hex_digit (n : nat) : ascii :=
  ascii_of_nat (if Nat.ltb n 10 then 48 + n else 55 + n).

(** The two-digit hexadecimal encoding of every byte of a string. *)
Fixpoint hex_encode (s : string) : string :=
  match s with
  | String b r =>
      String (hex_digit (nat_of_ascii b / 16))
        (String (hex_digit (nat_of_ascii b mod 16)) (hex_encode r))
  | EmptyString => EmptyString
  end.

(** The value bytes 0xAB 0x0C. *)
Definition bytes_AB_0C : string :=
  String (ascii_of_nat 171) (String (ascii_of_nat 12) EmptyString).

(** The value bytes 0x04 0x41. *)
Definition bytes_04_41 : string :=
  String (ascii_of_nat 4) (String (ascii_of_nat 65) EmptyString).


(** The text [print_utf8] writes for the value of an attribute. *)
Definition text_of (conv : string -> string) (a : Attr) : string :=
  cstr (conv (cstr (a_value a))).

(** The attributes of type [k], in sequence order. *)
Definition group (dn : list Attr) (k : string) : list Attr :=
  filter (fun a => strcmp_eq (a_key a) k) dn.

(** The attributes whose type is none of [stdpart], in sequence order. *)
Definition unknowns (dn : list Attr) : list Attr :=
  filter (fun a => not_stdpart (a_key a)) dn.

(** The separator written when [any] is set. *)
Definition sep (any : bool) : string := if any then ", " else EmptyString.

(** Every non-empty group of the types [parts], its values joined by
    [" + "], each group followed by [", "]. *)
Fixpoint known_text (conv : string -> string) (dn : list Attr)
    (parts : list string) : string :=
  match parts with
  | [] => EmptyString
  | k :: parts' =>
      (match group dn k with
       | [] => EmptyString
       | g => String.concat " + " (map (text_of conv) g) ++ ", "
       end ++ known_text conv dn parts')%string
  end.

(** The type of an attribute as [strcmp] reads it. *)
Definition type_of (a : Attr) : string := cstr (a_key a).

(** Values written one after the other, [" + "] before each but the first
    when [any] is clear. *)
Fixpoint plus_join (any : bool) (l : list string) : string :=
  match l with
  | [] => EmptyString
  | t :: l' => ((if any then " + " else EmptyString) ++ t ++ plus_join true l')%string
  end.

(** What the second loop writes for the texts of the remaining unknown
    attributes. *)
Fixpoint rest_text (any any2 : bool) (l : list string) : string :=
  match l with
  | [] => EmptyString
  | t :: l' =>
      (sep any ++ (if any2 then EmptyString else "(") ++ t ++ rest_text true true l')%string
  end.


(** A character of a C string that neither ends a value nor starts an
    escape nor is a double quote. *)
Definition is_plain (c : ascii) : bool :=
  negb (c =? "000") && negb (c =? "\") && negb (c =? dquote) && negb (is_delim c).

(** Every character of the string passes the test. *)
Fixpoint all_chars (p : ascii -> bool) (s : string) : bool :=
  match s with
  | String c r => p c && all_chars p r
  | EmptyString => true
  end.

(** The string starts with two hexadecimal digits. *)
Definition is_hex_pair (s : string) : bool :=
  match s with
  | String a (String b _) => isxdigit a && isxdigit b
  | _ => false
  end.

(** The byte written by two hexadecimal digits. *)
Definition hex_byte (h1 h2 : ascii) : ascii :=
  ascii_of_nat (16 * hexval h1 + hexval h2).

(** The decoding of a quoted string in one pass, as the format describes
    it: the value and what follows it, or [None] on an invalid escape or a
    bare double quote. *)
Fixpoint decode_quoted (s : string) : option (string * string) :=
  match s with
  | String c r =>
      if c =? "\" then
        match r with
        | String e r1 =>
            if is_escapable e then
              option_map (fun '(v, t) => (String e v, t)) (decode_quoted r1)
            else
              match r1 with
              | String e1 r2 =>
                  if isxdigit e && isxdigit e1 then
                    option_map (fun '(v, t) => (String (hex_byte e e1) v, t))
                      (decode_quoted r2)
                  else None
              | EmptyString => None
              end
        | EmptyString => None
        end
      else if c =? dquote then None
      else if is_delim c then Some (EmptyString, s)
      else option_map (fun '(v, t) => (String c v, t)) (decode_quoted r)
  | EmptyString => Some (EmptyString, s)
  end.

(** Every live block lies below the next address to be handed out. *)
Definition heap_wf (h : Heap) : Prop := forall x, In x (live h) -> x < brk h.

(** The blocks an entry points to. *)
Definition entry_blocks (e : DnArray) : list addr :=
  match key e with Some k => [buf_addr k] | None => [] end
  ++ match value e with Some v => [buf_addr v] | None => [] end.

(** An entry with both a key and a value. *)
Definition is_complete (e : DnArray) : bool :=
  match key e, value e with
  | Some _, Some _ => true
  | _, _ => false
  end.

(** The list [l] after every block of [xs] has been released. *)
Definition remove_all (xs l : list addr) : list addr :=
  fold_left (fun l x => remove Nat.eq_dec x l) xs l.

(** The heap [h], reached from [h0], holds on top of the blocks of [h0]
    exactly the array block [a] and the blocks of the entries of [array],
    all of them allocated after [h0]. *)
Definition owns (h0 h : Heap) (a : addr) (array : list DnArray) : Prop :=
  exists L,
    live h = (L ++ live h0)%list
    /\ (forall x, In x L <-> x = a \/ In x (flat_map entry_blocks array))
    /\ (forall x, In x L -> brk h0 <= x < brk h)
    /\ ~ In a (flat_map entry_blocks array).

(** The character is not ['=']. *)
Definition not_equals (c : ascii) : bool := negb (c =? "=").

(** The character is not ['#']. *)
Definition not_hash (c : ascii) : bool := negb (c =? "#").

(** The character is a space. *)
Definition is_space (c : ascii) : bool := c =? " ".

(** Parsing what the renderer wrote for [dn] succeeds, and rendering the
    result writes the same string again. *)
Definition round_trip (conv : string -> string) (dn : list Attr) : Prop :=
  exists dn',
    parse_dn_result (render_dn conv dn) = Ret (Some dn')
    /\ render_dn conv dn' = render_dn conv dn.

From Stdlib Require Import Sorting.Permutation ZArith.

(** ** Writing a DN string *)

(** One character of a value as a DN string carries it: a backslash in
    front of the characters that [is_escapable] accepts, two hexadecimal
    digits for NUL, the character itself otherwise. *)
Definition escape_char (c : ascii) : string :=
  if is_escapable c then String "\" (String c EmptyString)
  else if c =? "000" then "\00"%string
  else String c EmptyString.

Fixpoint escape_value (v : string) : string :=
  match v with
  | String c r => (escape_char c ++ escape_value r)%string
  | EmptyString => EmptyString
  end.

(** An attribute type that can stand in a DN string: not empty, not
    starting with a space, without ['='] and without NUL. *)
Definition valid_type (k : string) : bool :=
  match k with
  | String c _ =>
      negb (c =? " ") && all_chars not_equals k
      && all_chars (fun c => negb (c =? "000")) k
  | EmptyString => false
  end.

(** One of the three characters that separate the components. *)
Definition is_separator (d : ascii) : bool := (d =? ",") || (d =? ";") || (d =? "+").

(** [type=value] for one attribute. *)
Definition rdn_string (a : Attr) : string :=
  (a_key a ++ String "=" (escape_value (a_value a)))%string.

(** The DN string of an attribute sequence: its components, separated by
    the character [d] followed by the blanks [sp]. *)
Definition dn_string (d : ascii) (sp : string) (attrs : list Attr) : string :=
  String.concat (String d sp) (map rdn_string attrs).

(** The entry that [parse_dn] writes for an attribute, with its key in the
    block [pk] and its value in the block [pv]. *)
Definition entry_of (pk pv : addr) (a : Attr) : DnArray :=
  mkDn (Some (mkBuf pk (a_key a))) (Some (mkBuf pv (a_value a))).

(** What follows a component: the end of the string or a separator. *)
Definition component_end (t : string) : Prop :=
  t = EmptyString \/ exists d r, t = String d r /\ is_separator d = true.


(** The types of [stdpart] in front of the last one, C. *)
Definition stdpart_front : list string :=
  ["CN"; "OU"; "O"; "STREET"; "L"; "ST"]%string.

(** ** The fingerprint lines of print_key_info *)

(** [putc(c, fp)] *)
Definition putc (c : ascii) (fp : string) : string :=
  (fp ++ String c EmptyString)%string.

(** The line feed. *)
Definition newline : ascii := "010".

(** The loop
    [for (int i = 0; s[0] && s[1] && s[2] && s[3] && s[4]; s += 4, i++)]
    of [print_key_info]: the file and the final [s]. *)
Fixpoint fpr_quads (i : nat) (s : string) (fp : string) : string * string :=
  match s with
  | String a (String b (String c (String d ((String _ _) as s4)))) =>
      let fp := putc " " (putc d (putc c (putc b (putc a fp)))) in
      let fp := if Nat.eqb i 4 then putc " " fp else fp in
      fpr_quads (S i) s4 fp
  | _ => (fp, s)
  end.

(** The loop [for (int i = 0; s[0] && s[1] && s[2]; s += 2, i++)] of
    [print_key_info]: the file and the final [s]. *)
Fixpoint fpr_pairs (is_pgp : bool) (i : nat) (s : string) (fp : string)
  : string * string :=
  match s with
  | String a (String b ((String _ _) as s2)) =>
      let fp := putc (if is_pgp then " " else ":") (putc b (putc a fp)) in
      let fp := if is_pgp && Nat.eqb i 7 then putc " " fp else fp in
      fpr_pairs is_pgp (S i) s2 fp
  | _ => (fp, s)
  end.

(** What [print_key_info] writes for the fingerprint [s = key->subkeys->fpr]
    after the prompt: from [if (is_pgp && (strlen(s) == 40))] to
    [fprintf(fp, "%s\n", s)]. *)
Definition print_key_info_fingerprint (is_pgp : bool) (s : string) (fp : string)
  : string :=
  let (fp, s) :=
    if is_pgp && Nat.eqb (strlen s) 40 then fpr_quads 0 s fp
    else fpr_pairs is_pgp 0 s fp in
  putc newline (fputs s fp).

(** The character is not NUL. *)
Definition not_nul (c : ascii) : bool := negb (c =? "000").

(** A character that [print_key_info] puts between the groups of a
    fingerprint or after it. *)
Definition is_fpr_filler (c : ascii) : bool :=
  (c =? " ") || (c =? ":") || (c =? newline).

(** The string without the characters that pass the test. *)
Fixpoint drop_chars (p : ascii -> bool) (s : string) : string :=
  match s with
  | String c r => if p c then drop_chars p r else String c (drop_chars p r)
  | EmptyString => EmptyString
  end.

(** A string cut into pieces of two characters, the last piece holding what
    is left. *)
Fixpoint pairs_of (s : string) : list string :=
  match s with
  | String a (String b ((String _ _) as r)) =>
      String a (String b EmptyString) :: pairs_of r
  | EmptyString => []
  | _ => [s]
  end.

(** The [k]-th group of four characters. *)
Definition quad (s : string) (k : nat) : string := substring (4 * k) 4 s.

(** The character is none of the fillers. *)
Definition not_fpr_filler (c : ascii) : bool := negb (is_fpr_filler c).

(** ** The comparison functions of the key table *)

(** The fields of [struct _gpgme_subkey] the comparisons read: [length]
    (an [unsigned int]) and [timestamp] (a [long]), as the numbers they
    hold. *)
Record Subkey : Type := mkSubkey { sk_length : Z; sk_timestamp : Z }.

(** The fields of [struct CryptKeyInfo] the comparisons read: [flags],
    [validity], [uid] ([None] is NULL) and [kobj->subkeys] ([None] is
    NULL). *)
Record CryptKeyInfo : Type := mkKey {
  k_flags : Z;
  k_validity : Z;
  k_uid : option string;
  k_subkeys : option Subkey
}.

(** The value of a C comparison, 1 or 0. *)
Definition c_bool (b : bool) : Z := if b then 1%Z else 0%Z.

(** [!x] *)
Definition c_not (x : Z) : Z := c_bool (Z.eqb x 0).

(** The value of an [unsigned long] expression: modulo 2^64. *)
Definition u64 (x : Z) : Z := (x mod 2 ^ 64)%Z.

(** An [unsigned long] stored into an [int]: the low 32 bits, read as a
    signed number. *)
Definition to_int (x : Z) : Z := ((x + 2 ^ 31) mod 2 ^ 32 - 2 ^ 31)%Z.

Section Compare.

(** [mutt_istr_cmp], the comparison of two strings that ignores case, and
    [crypt_fpr_or_lkeyid], the fingerprint or long id of a key: both live in
    other files of the program. *)
Variable mutt_istr_cmp : option string -> option string -> Z.
Variable crypt_fpr_or_lkeyid : CryptKeyInfo -> option string.

(** The constants [KEYFLAG_RESTRICTIONS] and [SORT_REVERSE] and the value
    of the configuration variable [pgp_sort_keys]. *)
Variable KEYFLAG_RESTRICTIONS : Z.
Variable SORT_REVERSE : Z.
Variable c_pgp_sort_keys : Z.

(** [crypt_compare_key_address(a, b)] with [s = *a] and [t = *b]. *)
Definition crypt_compare_key_address (s t : CryptKeyInfo) : Z :=
  let r := mutt_istr_cmp (k_uid s) (k_uid t) in
  if negb (Z.eqb r 0) then c_bool (Z.gtb r 0)
  else c_bool (Z.gtb (mutt_istr_cmp (crypt_fpr_or_lkeyid s) (crypt_fpr_or_lkeyid t)) 0).

(** [crypt_compare_keyid(a, b)] *)
Definition crypt_compare_keyid (s t : CryptKeyInfo) : Z :=
  let r := mutt_istr_cmp (crypt_fpr_or_lkeyid s) (crypt_fpr_or_lkeyid t) in
  if negb (Z.eqb r 0) then c_bool (Z.gtb r 0)
  else c_bool (Z.gtb (mutt_istr_cmp (k_uid s) (k_uid t)) 0).

(** [if (k->kobj->subkeys && (k->kobj->subkeys->timestamp > 0))
       ts = k->kobj->subkeys->timestamp;] starting from the value [ts]. *)
Definition timestamp_or (ts : Z) (k : CryptKeyInfo) : Z :=
  match k_subkeys k with
  | Some sk => if Z.gtb (sk_timestamp sk) 0 then sk_timestamp sk else ts
  | None => ts
  end.

(** [if (k->kobj->subkeys) ts = k->kobj->subkeys->length;] starting from the
    value [ts]. *)
Definition length_or (ts : Z) (k : CryptKeyInfo) : Z :=
  match k_subkeys k with
  | Some sk => sk_length sk
  | None => ts
  end.

(** [crypt_compare_key_date(a, b)] *)
Definition crypt_compare_key_date (s t : CryptKeyInfo) : Z :=
  let ts := timestamp_or 0 s in
  let tt := timestamp_or 0 t in
  if Z.gtb ts tt then 1%Z
  else if Z.ltb ts tt then 0%Z
  else c_bool (Z.gtb (mutt_istr_cmp (k_uid s) (k_uid t)) 0).

(** [crypt_compare_key_trust(a, b)].  [KeyFlags] is a 16-bit type, so the
    difference of the masked flags is exact in an [int]. *)
Definition crypt_compare_key_trust (s t : CryptKeyInfo) : Z :=
  let r := (Z.land (k_flags s) KEYFLAG_RESTRICTIONS
            - Z.land (k_flags t) KEYFLAG_RESTRICTIONS)%Z in
  if negb (Z.eqb r 0) then c_bool (Z.gtb r 0)
  else
    let ts := k_validity s in
    let tt := k_validity t in
    let r := to_int (u64 (tt - ts)) in
    if negb (Z.eqb r 0) then c_bool (Z.ltb r 0)
    else
      let ts := length_or ts s in
      let tt := length_or tt t in
      if negb (Z.eqb ts tt) then c_bool (Z.gtb ts tt)
      else
        let ts := timestamp_or ts s in
        let tt := timestamp_or tt t in
        if Z.gtb ts tt then 1%Z
        else if Z.ltb ts tt then 0%Z
        else
          let r := mutt_istr_cmp (k_uid s) (k_uid t) in
          if negb (Z.eqb r 0) then c_bool (Z.gtb r 0)
          else c_bool (Z.gtb (mutt_istr_cmp (crypt_fpr_or_lkeyid s)
                                (crypt_fpr_or_lkeyid t)) 0).

(** The body shared by the four [..._qsort] functions:
    [(c_pgp_sort_keys & SORT_REVERSE) ? !f(a, b) : f(a, b)]. *)
Definition sort_order (f : CryptKeyInfo -> CryptKeyInfo -> Z)
    (s t : CryptKeyInfo) : Z :=
  if negb (Z.eqb (Z.land c_pgp_sort_keys SORT_REVERSE) 0) then c_not (f s t)
  else f s t.

(** [crypt_compare_address_qsort], [crypt_crypt_compare_keyid_qsort],
    [crypt_compare_date_qsort] and [crypt_compare_trust_qsort]. *)
Definition crypt_compare_address_qsort := sort_order crypt_compare_key_address.
Definition crypt_crypt_compare_keyid_qsort := sort_order crypt_compare_keyid.
Definition crypt_compare_date_qsort := sort_order crypt_compare_key_date.
Definition crypt_compare_trust_qsort := sort_order crypt_compare_key_trust.

End Compare.

(** A three-way comparison of two strings, NULL read as the empty string,
    to try the comparison functions on. *)
Definition sample_cmp (a b : option string) : Z :=
  let str x := match x with Some s => s | None => EmptyString end in
  match String.compare (str a) (str b) with
  | Lt => (-1)%Z
  | Eq => 0%Z
  | Gt => 1%Z
  end.

(** Two keys to try the comparison functions on. *)
Definition sample_key_bob : CryptKeyInfo :=
  mkKey 0 4 (Some "bob"%string) (Some (mkSubkey 4096 200)).

Definition sample_key_alice : CryptKeyInfo :=
  mkKey 0 3 (Some "alice"%string) (Some (mkSubkey 2048 100)).

(** ** The array of alias views (alias/gui.c) *)

(** [struct AliasView]; [av_alias] is the address of the [struct Alias]. *)
Record AliasView : Type := mkAliasView {
  av_num : Z;
  av_orig_seq : Z;
  av_is_tagged : bool;
  av_is_deleted : bool;
  av_is_visible : bool;
  av_alias : addr
}.

(** Modelled from the spec: [struct AliasViewArray] and the macros
    [ARRAY_SIZE], [ARRAY_ADD], [ARRAY_FOREACH] and [ARRAY_REMOVE] of
    mutt/array.h, which is not among the sources.  The spec describes the
    backing store of the menu as a linear in-memory array of rows with add,
    delete and count; the array is the list of its elements, in order. *)
Definition AliasViewArray : Type := list AliasView.

(** Modelled from the spec: [ARRAY_SIZE], missing with mutt/array.h, is the
    number of elements of the array. *)
Definition ARRAY_SIZE (ava : AliasViewArray) : Z := Z.of_nat (length ava).

(** Modelled from the spec: [ARRAY_ADD], missing with mutt/array.h, puts an
    element behind the last one. *)
Definition ARRAY_ADD (ava : AliasViewArray) (av : AliasView) : AliasViewArray :=
  (ava ++ [av])%list.

(** [alias_array_alias_add(ava, alias)]: the value returned and the array;
    [None] is a NULL pointer. *)
Definition alias_array_alias_add (ava : option AliasViewArray) (alias : option addr)
  : Z * option AliasViewArray :=
  match ava, alias with
  | Some arr, Some al =>
      let av := mkAliasView 0 (ARRAY_SIZE arr) false false true al in
      let arr := ARRAY_ADD arr av in
      (ARRAY_SIZE arr, Some arr)
  | _, _ => ((-1)%Z, ava)
  end.

(** The loop of [alias_array_alias_delete]: [ARRAY_FOREACH] visits the
    elements from the first on; at the first one that wraps [alias],
    [ARRAY_REMOVE] takes it out, the following elements moving down, and the
    loop is left. *)
Fixpoint remove_first_view (alias : addr) (arr : AliasViewArray) : AliasViewArray :=
  match arr with
  | [] => []
  | avp :: rest =>
      if negb (Nat.eqb (av_alias avp) alias) then avp :: remove_first_view alias rest
      else rest
  end.

(** [alias_array_alias_delete(ava, alias)] *)
Definition alias_array_alias_delete (ava : option AliasViewArray)
    (alias : option addr) : Z * option AliasViewArray :=
  match ava, alias with
  | Some arr, Some al =>
      let arr := remove_first_view al arr in
      (ARRAY_SIZE arr, Some arr)
  | _, _ => ((-1)%Z, ava)
  end.

(** The loop of [alias_array_count_visible], from the count [count]. *)
Fixpoint count_visible_from (count : Z) (arr : AliasViewArray) : Z :=
  match arr with
  | [] => count
  | avp :: rest =>
      count_visible_from (if av_is_visible avp then (count + 1)%Z else count) rest
  end.

(** [alias_array_count_visible(ava)] *)
Definition alias_array_count_visible (ava : AliasViewArray) : Z :=
  count_visible_from 0 ava.

(** Adding the aliases of a list one after the other. *)
Fixpoint add_all (arr : AliasViewArray) (aliases : list addr) : AliasViewArray :=
  match aliases with
  | [] => arr
  | al :: rest =>
      match snd (alias_array_alias_add (Some arr) (Some al)) with
      | Some arr' => add_all arr' rest
      | None => arr
      end
  end.

(** ** The date format of crypt_format_str *)

(** The loop [while ((len > 0) && (cp[0] != ']'))] of the case ['['] of
    [crypt_format_str], which copies the [strftime] format in front of the
    closing bracket into [buf].  [out] is what has been stored through [p]
    so far.  The result is what has been stored when the loop ends, the
    final [len] and the final [cp]; [cp] is [None] when it has stepped over
    the terminator, which the loop can only survive with [len] at 0. *)
Fixpoint datefmt_copy (cp : string) (len : Z) (out : string)
  : run (string * Z * option string) :=
  if negb (Z.gtb len 0) then Ret (out, len, Some cp)
  else
    match cp with
    | String c r =>
        if c =? "]" then Ret (out, len, Some cp)
        else if c =? "%" then
          if Z.geb len 2 then
            match r with
            | String e r2 => datefmt_copy r2 (len - 2) (putc e (putc "%" out))
            | EmptyString =>
                if Z.gtb (len - 2) 0 then OutOfBounds
                else Ret (putc "000" (putc "%" out), (len - 2)%Z, None)
            end
          else Ret (out, len, Some r)
        else datefmt_copy r (len - 1) (putc c out)
    | EmptyString =>
        if Z.gtb (len - 1) 0 then OutOfBounds
        else Ret (putc "000" out, (len - 1)%Z, None)
    end.

(** The part of the case ['['] that reads the format: [cp = src], the test
    of a leading ['!'], [len = buflen - 1] in [size_t], the loop, and the
    final [if (len > 0) src = cp + 1].  The result is the format handed to
    [strftime] (the buffer up to its first NUL), [do_locales], and the [src]
    that [crypt_format_str] returns, [None] for a pointer beyond the
    terminator. *)
Definition datefmt_read (buflen : Z) (src : string)
  : run (string * bool * option string) :=
  let do_locales := negb (peek src =? "!") in
  let cp := if peek src =? "!" then next src else src in
  let len := u64 (buflen - 1) in
  ' (out, len, cp) <- datefmt_copy cp len EmptyString ;;
  Ret (cstr out, do_locales,
       if Z.gtb len 0 then
         match cp with
         | Some (String _ r) => Some r
         | _ => None
         end
       else Some src).

(** A [strftime] format: ordinary characters other than the closing
    bracket, and conversions made of ['%'] and one more character. *)
Fixpoint is_datefmt (s : string) : bool :=
  match s with
  | String c r =>
      if c =? "%" then
        match r with
        | String e r2 => not_nul e && is_datefmt r2
        | EmptyString => false
        end
      else not_nul c && negb (c =? "]") && is_datefmt r
  | EmptyString => true
  end.
(** ** Hexadecimal values *)

(** Case analysis over the 256 characters. *)
Ltac ascii_cases c := destruct c as [[] [] [] [] [] [] [] []].

Lemma hex_pair_scan (b : ascii) (r : string) :
  isxdigit (hex_digit (nat_of_ascii b / 16)) = true
  /\ sscanf_2hhx (String (hex_digit (nat_of_ascii b / 16))
                    (String (hex_digit (nat_of_ascii b mod 16)) r)) = Some b.
Proof.
  ascii_cases b; split; reflexivity.
Qed.

Lemma hex_run_encode (v : string) :
  hex_run (hex_encode v) = Ret (2 * String.length v, EmptyString).
Proof.
  induction v as [|b v IH]; [reflexivity|].
  cbn [hex_encode hex_run String.length].
  rewrite (proj1 (hex_pair_scan b EmptyString)), IH. cbn [bind].
  f_equal. f_equal. lia.
Qed.

Lemma hex_fill_encode (v : string) :
  hex_fill (String.length v) (hex_encode v) = Ret v.
Proof.
  induction v as [|b v IH]; [reflexivity|].
  cbn [hex_encode hex_fill String.length].
  rewrite (proj2 (hex_pair_scan b (hex_encode v))), IH. reflexivity.
Qed.

(** Induction over a string two characters at a time, as the scan of a
    hexadecimal value walks it. *)
Lemma string_pair_ind (P : string -> Prop) :
  P EmptyString ->
  (forall c, P (String c EmptyString)) ->
  (forall c c' r, P r -> P (String c (String c' r))) ->
  forall s, P s.
Proof.
  intros H0 H1 H2 s.
  assert (H : P s /\ forall c, P (String c s)).
  { induction s as [|c' r [IHa IHb]]; split; auto. }
  exact (proj1 H).
Qed.

(** [n & 1] is never set after the scan: the digit count it returns is
    always even. *)
Lemma hex_run_even (s e : string) (n : nat) :
  hex_run s = Ret (n, e) -> Nat.odd n = false.
Proof.
  revert n e. induction s as [|c|c c' r IH] using string_pair_ind;
    intros n e; cbn [hex_run].
  - intros H; inversion H; reflexivity.
  - destruct (isxdigit c); intros H; inversion H; reflexivity.
  - destruct (isxdigit c); [|intros H; inversion H; reflexivity].
    destruct (hex_run r) as [[n' e']| |] eqn:E; cbn [bind]; intros H; inversion H; subst.
    rewrite Nat.odd_succ, Nat.even_succ. exact (IH n' _ eq_refl).
Qed.

(** After a scan that ended inside the string, the decoding loop stores
    one byte for every two characters scanned and never leaves the string. *)
Lemma hex_fill_after_run (s e : string) (n : nat) :
  hex_run s = Ret (n, e) ->
  exists v, hex_fill (n / 2) s = Ret v /\ String.length v = n / 2.
Proof.
  revert n e. induction s as [|c|c c' r IH] using string_pair_ind;
    intros n e; cbn [hex_run].
  - intros H; inversion H; subst. exists EmptyString. split; reflexivity.
  - destruct (isxdigit c); intros H; inversion H; subst.
    exists EmptyString. split; reflexivity.
  - destruct (isxdigit c) eqn:Hc.
    2:{ intros H; inversion H; subst. exists EmptyString. split; reflexivity. }
    destruct (hex_run r) as [[n' e']| |]; cbn [bind]; intros H; inversion H; subst.
    destruct (IH n' _ eq_refl) as (v & Hv & Hl).
    replace (S (S n') / 2) with (S (n' / 2)).
    2:{ replace (S (S n')) with (n' + 1 * 2) by lia.
        rewrite Nat.div_add by lia. lia. }
    cbn [hex_fill sscanf_2hhx]. rewrite Hc.
    destruct (isxdigit c'); rewrite Hv; cbn [bind].
    + eexists. split; [reflexivity|]. cbn [String.length]. now rewrite Hl.
    + eexists. split; [reflexivity|]. cbn [String.length]. now rewrite Hl.
Qed.

Lemma parse_dn_part_CN_hex (b : ascii) (v : string) (h : Heap) :
  parse_dn_part dn_null
    (String "C" (String "N" (String "=" (String "#" (hex_encode (String b v)))))) h
  = Ret (Some EmptyString,
         mkDn (Some (mkBuf (brk h) "CN")) (Some (mkBuf (S (brk h)) (String b v))),
         mkHeap (S (S (brk h))) (S (brk h) :: brk h :: live h)).
Proof.
  unfold parse_dn_part.
  cbn [skip_type Ascii.eqb Bool.eqb mutt_mem_malloc Nat.eqb peek next].
  rewrite hex_run_encode. cbn [bind].
  replace (2 * String.length (String b v)) with (S (S (2 * String.length v)))
    by (cbn [String.length]; lia).
  cbn [Nat.eqb orb].
  rewrite Nat.odd_succ, Nat.even_succ, Nat.odd_mul. cbn [Nat.odd Nat.even andb].
  replace (S (S (2 * String.length v)) / 2) with (String.length (String b v)).
  2:{ cbn [String.length].
      replace (S (S (2 * String.length v))) with (S (String.length v) * 2) by lia.
      now rewrite Nat.div_mul. }
  rewrite hex_fill_encode. reflexivity.
Qed.

(** C7.  [parse_dn("CN=#48656C6C6F")] returns the single attribute
    [{key: "CN", value: "Hello"}]; more generally every pair of hexadecimal
    digits after ['#'] becomes one byte of the value: parsing ["CN=#"]
    followed by the hexadecimal encoding of any non-empty byte string gives
    back that byte string as the value of [CN]. *)
Theorem parse_dn_hex_value :
  parse_dn_result "CN=#48656C6C6F" = Ret (Some [mkAttr "CN" "Hello"])
  /\ forall (b : ascii) (v : string),
       parse_dn_result
         (String "C" (String "N" (String "=" (String "#" (hex_encode (String b v))))))
       = Ret (Some [mkAttr "CN" (String b v)]).
Proof.
  split; [vm_compute; reflexivity|].
  intros b v. unfold parse_dn_result, parse_dn.
  cbn [mutt_mem_malloc String.length parse_dn_loop skip_spaces Ascii.eqb Bool.eqb
       Nat.leb length].
  rewrite parse_dn_part_CN_hex. reflexivity.
Qed.

(** C10.  The scan of a ['#'] value tests only every second character, so
    a character that is not a hexadecimal digit is accepted in the second
    position of the run: whatever such character [c] stands there, parsing
    ["CN=#4c41"] succeeds and the value is the two bytes 0x04 0x41, the
    conversion of the first pair stopping at [c].  In particular
    [parse_dn("CN=#4z41")] succeeds with that value. *)
Theorem parse_dn_hex_skips_odd_positions (c : ascii) :
  (c =? "000") = false ->
  isxdigit c = false ->
  parse_dn_result
    (String "C" (String "N" (String "=" (String "#" (String "4" (String c "41"))))))
  = Ret (Some [mkAttr "CN" bytes_04_41])
  /\ parse_dn_result "CN=#4z41" = Ret (Some [mkAttr "CN" bytes_04_41]).
Proof.
  intros Hc Hx. split; [|vm_compute; reflexivity].
  revert Hc Hx. ascii_cases c; vm_compute; intros Hc Hx;
    first [reflexivity | discriminate Hc | discriminate Hx].
Qed.

Lemma parse_dn_hex_skips_odd_positions_witness :
  parse_dn_result "CN=#4z41" = Ret (Some [mkAttr "CN" bytes_04_41]).
Proof.
  exact (proj1 (parse_dn_hex_skips_odd_positions "z" eq_refl eq_refl)).
Defined.

(** C9.  [parse_dn("")] returns an array that holds only the sentinel: the
    loop body never runs, the one block allocated is the array, and the
    caller sees the empty attribute sequence. *)
Theorem parse_dn_empty :
  (forall h : Heap,
     parse_dn EmptyString h
     = Ret (Some (brk h, [dn_null]), mkHeap (S (brk h)) (brk h :: live h)))
  /\ parse_dn_result EmptyString = Ret (Some []).
Proof.
  split; reflexivity.
Qed.

(** C3.  On ["CN=#ABC"] the scan tests the characters at offsets 0 and 2 of
    the run and then reads offset 4, beyond the terminating NUL: no failure
    is returned.  On ["CN=#ABC,"], where the run [ABC] has three digits, the
    call succeeds with the value bytes 0xAB 0x0C.  Only the empty run is
    rejected. *)
Theorem parse_dn_odd_hex_run :
  parse_dn_result "CN=#ABC" = OutOfBounds
  /\ parse_dn_result "CN=#ABC," = Ret (Some [mkAttr "CN" bytes_AB_0C])
  /\ parse_dn_result "CN=#" = Ret None.
Proof.
  repeat split; vm_compute; reflexivity.
Qed.

(** C4.  The attribute type is scanned from the second character of the
    component on, so a component that begins with ['='] is given a type that
    starts with that character: [parse_dn("=x=y")] returns the attribute
    [{key: "=x", value: "y"}], and so does the second component of
    ["CN=a,=x=y"]. *)
Theorem parse_dn_leading_equals :
  parse_dn_result "=x=y" = Ret (Some [mkAttr "=x" "y"])
  /\ parse_dn_result "CN=a,=x=y" = Ret (Some [mkAttr "CN" "a"; mkAttr "=x" "y"]).
Proof.
  split; vm_compute; reflexivity.
Qed.

(** ** Rendering: what is written *)

Lemma str_app_assoc (a b c : string) : ((a ++ b) ++ c = a ++ (b ++ c))%string.
Proof. induction a as [|x a IH]; cbn; [reflexivity|now rewrite IH]. Qed.

Lemma str_app_nil_r (a : string) : (a ++ EmptyString)%string = a.
Proof. induction a as [|x a IH]; cbn; [reflexivity|now rewrite IH]. Qed.

Lemma concat_cons2 (sp x y : string) (l : list string) :
  String.concat sp (x :: y :: l) = (x ++ sp ++ String.concat sp (y :: l))%string.
Proof. reflexivity. Qed.

Lemma cstr_idem (s : string) : cstr (cstr s) = cstr s.
Proof.
  induction s as [|c s IH]; [reflexivity|]. cbn.
  destruct (c =? "000") eqn:E; [reflexivity|]. cbn. now rewrite E, IH.
Qed.

Lemma substring_strlen (s : string) : substring 0 (strlen s) s = cstr s.
Proof.
  unfold strlen. induction s as [|c s IH]; [reflexivity|]. cbn.
  destruct (c =? "000"); [reflexivity|]. cbn. now rewrite IH.
Qed.

Section RenderFacts.

Variable conv : string -> string.

Lemma print_utf8_value (fp : string) (a : Attr) :
  print_utf8 conv fp (a_value a) (strlen (a_value a)) = (fp ++ text_of conv a)%string.
Proof.
  unfold print_utf8, fputs, text_of. now rewrite substring_strlen, cstr_idem.
Qed.

Lemma concat_plus_join (t : string) (l : list string) :
  String.concat " + " (t :: l) = (t ++ plus_join true l)%string.
Proof.
  revert t. induction l as [|u l IH]; intros t.
  - cbn. now rewrite str_app_nil_r.
  - rewrite concat_cons2, IH. reflexivity.
Qed.

Lemma print_dn_part_from_eq (dn : list Attr) (k : string) :
  forall (fp : string) (any : bool),
    print_dn_part_from conv fp dn k any
    = ((fp ++ plus_join any (map (text_of conv) (group dn k)))%string,
       any || negb (match group dn k with [] => true | _ => false end)).
Proof.
  induction dn as [|a dn IH]; intros fp any; cbn [print_dn_part_from group filter].
  - cbn. now rewrite str_app_nil_r, orb_false_r.
  - fold (group dn k). destruct (strcmp_eq (a_key a) k).
    + rewrite IH, print_utf8_value. cbn [map plus_join negb].
      rewrite orb_true_r. f_equal.
      destruct any; unfold fputs; cbn [cstr Ascii.eqb Bool.eqb];
        now rewrite ?str_app_assoc.
    + apply IH.
Qed.

Lemma print_dn_part_eq (fp : string) (dn : list Attr) (k : string) :
  print_dn_part conv fp dn k
  = ((fp ++ match group dn k with
            | [] => EmptyString
            | g => String.concat " + " (map (text_of conv) g)
            end)%string,
     negb (match group dn k with [] => true | _ => false end)).
Proof.
  unfold print_dn_part. rewrite print_dn_part_from_eq. cbn [orb].
  destruct (group dn k) as [|a g]; [reflexivity|].
  cbn [map]. now rewrite concat_plus_join.
Qed.

(** The first loop: once the separator owed for the last group is added,
    the file holds every non-empty group followed by [", "]. *)
Lemma print_std_eq (dn : list Attr) (parts : list string) :
  forall (fp : string) (any : bool),
    (fst (print_std conv fp dn parts any)
       ++ sep (snd (print_std conv fp dn parts any))
     = fp ++ sep any ++ known_text conv dn parts)%string.
Proof.
  induction parts as [|k parts IH]; intros fp any; cbn [print_std known_text fst snd].
  - now rewrite str_app_nil_r.
  - rewrite print_dn_part_eq, IH.
    destruct (group dn k) as [|a g]; cbn [negb sep]; destruct any; unfold fputs;
      cbn [cstr Ascii.eqb Bool.eqb sep String.append];
      rewrite ?str_app_assoc, ?str_app_nil_r; reflexivity.
Qed.

Lemma concat_rest_text (t : string) (l : list string) :
  String.concat ", " (t :: l) = (t ++ rest_text true true l)%string.
Proof.
  revert t. induction l as [|u l IH]; intros t.
  - cbn. now rewrite str_app_nil_r.
  - rewrite concat_cons2, IH. reflexivity.
Qed.

Lemma strcmp_eq_type (a b : string) : strcmp_eq a b = true <-> cstr a = cstr b.
Proof. unfold strcmp_eq. apply String.eqb_eq. Qed.

Lemma strcmp_eq_refl (a : string) : strcmp_eq a a = true.
Proof. now apply strcmp_eq_type. Qed.

Lemma not_stdpart_type (a b : string) :
  cstr a = cstr b -> not_stdpart a = not_stdpart b.
Proof.
  intros H. unfold not_stdpart, strcmp_eq. now rewrite H.
Qed.

Lemma group_unknown_nil (dn : list Attr) (a : Attr) :
  ~ In (type_of a) (map type_of (unknowns dn)) ->
  not_stdpart (a_key a) = true ->
  group dn (a_key a) = [].
Proof.
  intros Hnot Ha. induction dn as [|b dn IH]; [reflexivity|].
  cbn [group filter]. fold (group dn (a_key a)).
  cbn [unknowns filter] in Hnot. fold (unknowns dn) in Hnot.
  destruct (strcmp_eq (a_key b) (a_key a)) eqn:E.
  - exfalso. apply strcmp_eq_type in E.
    rewrite (not_stdpart_type _ _ E), Ha in Hnot. apply Hnot. left. exact E.
  - apply IH. intros Hin. apply Hnot.
    destruct (not_stdpart (a_key b)); [right|]; exact Hin.
Qed.

Lemma print_rest_eq (dn : list Attr) :
  NoDup (map type_of (unknowns dn)) ->
  forall (fp : string) (any any2 : bool),
    print_rest conv fp dn any any2
    = ((fp ++ rest_text any any2 (map (text_of conv) (unknowns dn)))%string,
       any2 || negb (match unknowns dn with [] => true | _ => false end)).
Proof.
  induction dn as [|a dn IH]; intros Hnd fp any any2; cbn [print_rest unknowns filter].
  - cbn. now rewrite str_app_nil_r, orb_false_r.
  - fold (unknowns dn). cbn [unknowns filter] in Hnd. fold (unknowns dn) in Hnd.
    destruct (not_stdpart (a_key a)) eqn:Ha.
    + cbn [map] in Hnd. inversion Hnd as [|x l Hnot Hnd']; subst.
      unfold print_dn_part. cbn [print_dn_part_from].
      rewrite strcmp_eq_refl, print_utf8_value, print_dn_part_from_eq.
      rewrite (group_unknown_nil dn a Hnot Ha).
      cbn [map plus_join orb]. rewrite (IH Hnd').
      cbn [map rest_text negb]. rewrite orb_true_r. f_equal.
      destruct any, any2; unfold fputs;
        cbn [cstr Ascii.eqb Bool.eqb sep negb String.append];
        rewrite ?str_app_assoc, ?str_app_nil_r; reflexivity.
    + apply (IH Hnd).
Qed.

End RenderFacts.

Lemma print_std_any (dn : list Attr) (k : string) (parts : list string) :
  forall (conv : string -> string) (fp : string) (any : bool),
    snd (print_std conv fp dn (parts ++ [k]) any)
    = negb (match group dn k with [] => true | _ => false end).
Proof.
  induction parts as [|k0 parts IH]; intros conv fp any; cbn [app print_std].
  - rewrite print_dn_part_eq. reflexivity.
  - rewrite print_dn_part_eq. apply IH.
Qed.

(** A sequence of known types only: what is written, completed by the
    separator when the C group is not empty, is every non-empty group
    followed by [", "].  So the file ends with a separator whenever the
    sequence is not empty and has no attribute of type C. *)
Lemma print_dn_parts_known (conv : string -> string) (dn : list Attr) :
  unknowns dn = [] ->
  (render_dn conv dn
     ++ sep (negb (match group dn "C" with [] => true | _ => false end)))%string
  = known_text conv dn stdpart.
Proof.
  intros Hu. unfold render_dn, print_dn_parts.
  pose proof (print_std_eq conv dn stdpart EmptyString false) as Hstd.
  pose proof (print_std_any dn "C" ["CN"; "OU"; "O"; "STREET"; "L"; "ST"]%string
                conv EmptyString false) as Hany.
  change (snd (print_std conv EmptyString dn stdpart false)
          = negb (match group dn "C" with [] => true | _ => false end)) in Hany.
  destruct (print_std conv EmptyString dn stdpart false) as [fp any].
  cbn [fst snd sep String.append] in Hstd, Hany. subst any.
  rewrite print_rest_eq by (rewrite Hu; constructor).
  rewrite Hu. cbn [map rest_text orb negb]. now rewrite str_app_nil_r.
Qed.

(** C1.  For the parsed attributes [{OU,"Eng"},{CN,"Alice"},{O,"Acme"}] the
    groups come out in the order CN, OU, O, but the separator owed after the
    O group is written before the empty STREET group is looked at: the file
    receives ["Alice, Eng, Acme, "], with a trailing separator.  A lone CN
    attribute is likewise written as ["A, "]. *)
Theorem print_dn_parts_trailing_separator :
  render_dn utf8_display
    [mkAttr "OU" "Eng"; mkAttr "CN" "Alice"; mkAttr "O" "Acme"]
  = "Alice, Eng, Acme, "%string
  /\ render_dn utf8_display [mkAttr "CN" "A"] = "A, "%string.
Proof.
  split; reflexivity.
Qed.

(** C2, as stated, fails: the attributes [CN="A", X="1", Y="2"] are not
    written as ["A (1, 2)"]. *)
Lemma print_dn_parts_unknown_no_bare_paren :
  render_dn utf8_display [mkAttr "CN" "A"; mkAttr "X" "1"; mkAttr "Y" "2"]
  <> "A (1, 2)"%string.
Proof.
  vm_compute. discriminate.
Qed.

(** C2, amended.  When the sequence has attributes of unknown type and no
    unknown type occurs twice, the file receives every non-empty known group
    followed by [", "], then one opening parenthesis, the values of the
    unknown attributes in sequence order joined by [", "], and one closing
    parenthesis. *)
Theorem print_dn_parts_unknown_group (conv : string -> string) (dn : list Attr) :
  unknowns dn <> [] ->
  NoDup (map type_of (unknowns dn)) ->
  render_dn conv dn
  = (known_text conv dn stdpart
     ++ "(" ++ String.concat ", " (map (text_of conv) (unknowns dn)) ++ ")")%string.
Proof.
  intros Hne Hnd. unfold render_dn, print_dn_parts.
  pose proof (print_std_eq conv dn stdpart EmptyString false) as Hstd.
  destruct (print_std conv EmptyString dn stdpart false) as [fp any].
  cbn [fst snd sep String.append] in Hstd.
  rewrite (print_rest_eq conv dn Hnd).
  destruct (unknowns dn) as [|u l]; [contradiction|].
  cbn [orb negb map rest_text]. rewrite concat_rest_text.
  unfold fputs. cbn [cstr Ascii.eqb Bool.eqb String.append].
  rewrite <- Hstd, !str_app_assoc. cbn [String.append].
  rewrite ?str_app_assoc. reflexivity.
Qed.

Lemma print_dn_parts_unknown_group_witness :
  render_dn utf8_display [mkAttr "CN" "A"; mkAttr "X" "1"; mkAttr "Y" "2"]
  = "A, (1, 2)"%string.
Proof.
  apply (print_dn_parts_unknown_group utf8_display
           [mkAttr "CN" "A"; mkAttr "X" "1"; mkAttr "Y" "2"]).
  - vm_compute. discriminate.
  - vm_compute. repeat constructor; simpl; intuition discriminate.
Defined.

(** An unknown type that occurs twice has its later values written again:
    [X="1", X="2"] gives ["(1 + 2, 2)"]. *)
Lemma print_dn_parts_repeated_unknown :
  render_dn utf8_display [mkAttr "X" "1"; mkAttr "X" "2"] = "(1 + 2, 2)"%string.
Proof. reflexivity. Qed.

(** ** Quoted strings *)

Lemma escapable_not_xdigit (c : ascii) : is_escapable c = true -> isxdigit c = false.
Proof.
  ascii_cases c; vm_compute; intros H;
    first [reflexivity | discriminate H].
Qed.

Lemma sscanf_hex_pair (e e1 : ascii) (r : string) :
  isxdigit e = true -> isxdigit e1 = true ->
  sscanf_2hhx (String e (String e1 r)) = Some (hex_byte e e1).
Proof.
  intros H H1. cbn [sscanf_2hhx]. now rewrite H, H1.
Qed.

(** Induction on the length of a string. *)
Lemma string_length_ind (P : string -> Prop) :
  (forall s, (forall t, String.length t < String.length s -> P t) -> P s) ->
  forall s, P s.
Proof.
  intros H s. remember (String.length s) as n eqn:E. revert s E.
  induction n as [n IH] using lt_wf_ind. intros s E. subst n.
  apply H. intros t Ht. exact (IH _ Ht t eq_refl).
Qed.

(** The two passes of the source agree with the one-pass decoding: the
    first pass fails exactly when the decoding does, and otherwise the
    second pass stores the decoded value, of the length the first pass
    counted, and stops where the first pass stopped. *)
Lemma quoted_passes (s : string) :
  match quoted_len s with
  | None => decode_quoted s = None
  | Some (n, t) =>
      exists v, decode_quoted s = Some (v, t)
                /\ quoted_fill n s = Ret (v, t)
                /\ String.length v = n
                /\ String.length t <= String.length s
  end.
Proof.
  induction s as [s IH] using string_length_ind.
  destruct s as [|c r]; cbn [quoted_len decode_quoted].
  { exists EmptyString. repeat split. cbn. lia. }
  destruct (c =? "\") eqn:Ec.
  - destruct r as [|e r1]; [reflexivity|].
    destruct (is_escapable e) eqn:Ee.
    + specialize (IH r1 ltac:(cbn; lia)).
      destruct (quoted_len r1) as [[n t]|]; cbn [option_map].
      * destruct IH as (v & Hd & Hf & Hl & Ht). rewrite Hd. cbn [option_map].
        exists (String e v). repeat split.
        -- cbn [quoted_fill]. rewrite Ec, (escapable_not_xdigit e Ee), Hf. reflexivity.
        -- cbn. lia.
        -- cbn [String.length] in *. lia.
      * now rewrite IH.
    + destruct r1 as [|e1 r2]; [reflexivity|].
      destruct (isxdigit e) eqn:Hx; cbn [andb]; [|reflexivity].
      destruct (isxdigit e1) eqn:Hx1; [|reflexivity].
      specialize (IH r2 ltac:(cbn; lia)).
      destruct (quoted_len r2) as [[n t]|]; cbn [option_map].
      * destruct IH as (v & Hd & Hf & Hl & Ht). rewrite Hd. cbn [option_map].
        exists (String (hex_byte e e1) v). repeat split.
        -- cbn [quoted_fill]. rewrite Ec, Hx, (sscanf_hex_pair e e1 r2 Hx Hx1), Hf.
           reflexivity.
        -- cbn. lia.
        -- cbn [String.length] in *. lia.
      * now rewrite IH.
  - destruct (c =? dquote); [reflexivity|].
    destruct (is_delim c).
    + exists EmptyString. repeat split. cbn. lia.
    + specialize (IH r ltac:(cbn; lia)).
      destruct (quoted_len r) as [[n t]|]; cbn [option_map].
      * destruct IH as (v & Hd & Hf & Hl & Ht). rewrite Hd. cbn [option_map].
        exists (String c v). repeat split.
        -- cbn [quoted_fill]. rewrite Ec, Hf. reflexivity.
        -- cbn. lia.
        -- cbn [String.length] in *. lia.
      * now rewrite IH.
Qed.

(** The quoted-string branch computes the one-pass decoding and never reads
    outside the string. *)
Lemma quoted_string_decode (s : string) : quoted_string s = Ret (decode_quoted s).
Proof.
  unfold quoted_string. pose proof (quoted_passes s) as H.
  destruct (quoted_len s) as [[n t]|].
  - destruct H as (v & Hd & Hf & _). now rewrite Hf, Hd.
  - now rewrite H.
Qed.

Lemma decode_quoted_plain (pre s : string) :
  all_chars is_plain pre = true ->
  decode_quoted (pre ++ s)
  = option_map (fun '(v, t) => ((pre ++ v)%string, t)) (decode_quoted s).
Proof.
  induction pre as [|c pre IH]; intros Hp.
  - cbn. destruct (decode_quoted s) as [[v t]|]; reflexivity.
  - cbn [all_chars] in Hp. apply andb_true_iff in Hp as [Hc Hp].
    unfold is_plain in Hc. apply andb_true_iff in Hc as [Hc Hd].
    apply andb_true_iff in Hc as [Hc Hq]. apply andb_true_iff in Hc as [_ Hb].
    apply negb_true_iff in Hb, Hq, Hd.
    cbn [String.append decode_quoted]. rewrite Hb, Hq, Hd, (IH Hp).
    destruct (decode_quoted s) as [[v t]|]; reflexivity.
Qed.

Lemma decode_quoted_all_plain (post : string) :
  all_chars is_plain post = true ->
  decode_quoted post = Some (post, EmptyString).
Proof.
  intros Hp. rewrite <- (str_app_nil_r post) at 1.
  rewrite (decode_quoted_plain post EmptyString Hp). cbn.
  now rewrite str_app_nil_r.
Qed.

Lemma parse_dn_part_CN_quoted (s : string) (h : Heap) :
  (peek s =? "#") = false ->
  parse_dn_part dn_null (String "C" (String "N" (String "=" s))) h
  = match decode_quoted s with
    | None =>
        Ret (None, mkDn (Some (mkBuf (brk h) "CN")) None,
             mkHeap (S (brk h)) (brk h :: live h))
    | Some (v, t) =>
        Ret (Some t,
             mkDn (Some (mkBuf (brk h) "CN")) (Some (mkBuf (S (brk h)) v)),
             mkHeap (S (S (brk h))) (S (brk h) :: brk h :: live h))
    end.
Proof.
  intros Hh. unfold parse_dn_part.
  cbn [skip_type Ascii.eqb Bool.eqb mutt_mem_malloc Nat.eqb]. rewrite Hh.
  pose proof (quoted_passes s) as H.
  destruct (quoted_len s) as [[n t]|].
  - destruct H as (v & Hd & Hf & _). rewrite Hd, Hf. reflexivity.
  - rewrite H. reflexivity.
Qed.

Lemma parse_dn_CN_invalid (s : string) :
  (peek s =? "#") = false ->
  decode_quoted s = None ->
  parse_dn_result (String "C" (String "N" (String "=" s))) = Ret None.
Proof.
  intros Hh Hd. unfold parse_dn_result, parse_dn.
  cbn [mutt_mem_malloc String.length parse_dn_loop skip_spaces Ascii.eqb Bool.eqb
       Nat.leb length].
  rewrite (parse_dn_part_CN_quoted s _ Hh), Hd. reflexivity.
Qed.

Lemma parse_dn_CN_value (s v : string) :
  (peek s =? "#") = false ->
  decode_quoted s = Some (v, EmptyString) ->
  parse_dn_result (String "C" (String "N" (String "=" s)))
  = Ret (Some [mkAttr "CN" v]).
Proof.
  intros Hh Hd. unfold parse_dn_result, parse_dn.
  cbn [mutt_mem_malloc String.length parse_dn_loop skip_spaces Ascii.eqb Bool.eqb
       Nat.leb length].
  rewrite (parse_dn_part_CN_quoted s _ Hh), Hd. reflexivity.
Qed.

Lemma plain_not_hash (c : ascii) : is_plain c = true -> (c =? "#") = false.
Proof.
  ascii_cases c; vm_compute; intros H;
    first [reflexivity | discriminate H].
Qed.

Lemma peek_plain_app (pre s : string) :
  all_chars is_plain pre = true ->
  (peek (pre ++ String "\" s) =? "#") = false.
Proof.
  destruct pre as [|c pre]; [reflexivity|]. cbn [all_chars String.append peek].
  intros H. apply andb_true_iff in H as [H _]. now apply plain_not_hash.
Qed.

(** C6.  In the value of [CN=...], after any run [pre] of ordinary
    characters: a backslash followed by one of [, = + < > # ; \], the double
    quote or the space puts that character in the value; a backslash
    followed by two hexadecimal digits puts the byte they denote; a
    backslash followed by anything else, or by the end of the string, makes
    [parse_dn] return NULL.  In particular [parse_dn("CN=John\,Doe")]
    returns the single attribute [{key: "CN", value: "John,Doe"}]. *)
Theorem parse_dn_escape_decoding
    (pre post rest : string) (c h1 h2 b : ascii) :
  all_chars is_plain pre = true ->
  all_chars is_plain post = true ->
  is_escapable c = true ->
  isxdigit h1 = true -> isxdigit h2 = true ->
  is_escapable b = false -> is_hex_pair (String b rest) = false ->
  parse_dn_result ("CN=" ++ pre ++ String "\" (String c post))
  = Ret (Some [mkAttr "CN" (pre ++ String c post)])
  /\ parse_dn_result ("CN=" ++ pre ++ String "\" (String h1 (String h2 post)))
     = Ret (Some [mkAttr "CN" (pre ++ String (hex_byte h1 h2) post)])
  /\ parse_dn_result ("CN=" ++ pre ++ String "\" (String b rest)) = Ret None
  /\ parse_dn_result ("CN=" ++ pre ++ String "\" EmptyString) = Ret None
  /\ parse_dn_result "CN=John\,Doe" = Ret (Some [mkAttr "CN" "John,Doe"]).
Proof.
  intros Hpre Hpost Hc Hh1 Hh2 Hb Hbad.
  cbn [String.append].
  split; [|split; [|split; [|split]]].
  - apply parse_dn_CN_value; [now apply peek_plain_app|].
    rewrite (decode_quoted_plain pre _ Hpre). cbn [decode_quoted Ascii.eqb Bool.eqb].
    rewrite Hc, (decode_quoted_all_plain post Hpost). reflexivity.
  - apply parse_dn_CN_value; [now apply peek_plain_app|].
    rewrite (decode_quoted_plain pre _ Hpre). cbn [decode_quoted Ascii.eqb Bool.eqb].
    destruct (is_escapable h1) eqn:E.
    { apply escapable_not_xdigit in E. congruence. }
    rewrite Hh1, Hh2, (decode_quoted_all_plain post Hpost). reflexivity.
  - apply parse_dn_CN_invalid; [now apply peek_plain_app|].
    rewrite (decode_quoted_plain pre _ Hpre). cbn [decode_quoted Ascii.eqb Bool.eqb].
    rewrite Hb. destruct rest as [|e1 r2]; [reflexivity|].
    cbn [is_hex_pair] in Hbad. rewrite Hbad. reflexivity.
  - apply parse_dn_CN_invalid; [now apply peek_plain_app|].
    rewrite (decode_quoted_plain pre _ Hpre). reflexivity.
  - vm_compute. reflexivity.
Qed.

Lemma parse_dn_escape_decoding_witness :
  parse_dn_result "CN=John\,Doe" = Ret (Some [mkAttr "CN" "John,Doe"])
  /\ parse_dn_result "CN=John\2CDoe" = Ret (Some [mkAttr "CN" "John,Doe"])
  /\ parse_dn_result "CN=John\zDoe" = Ret None.
Proof.
  pose proof (parse_dn_escape_decoding "John" "Doe" "Doe" "," "2" "C" "z"
                eq_refl eq_refl eq_refl eq_refl eq_refl eq_refl eq_refl)
    as (H1 & H2 & H3 & _).
  split; [exact H1 | split; [exact H2 | exact H3]].
Defined.

(** ** parse_dn: termination and ownership *)

Lemma skip_spaces_length (s : string) :
  String.length (skip_spaces s) <= String.length s.
Proof.
  induction s as [|c s IH]; cbn; [lia|]. destruct (c =? " "); cbn; lia.
Qed.

Lemma skip_type_length (s : string) :
  String.length (snd (skip_type s)) <= String.length s.
Proof.
  induction s as [|c s IH]; cbn; [lia|].
  destruct (c =? "="); cbn; [lia|].
  destruct (skip_type s) as [n e]. cbn in *. lia.
Qed.

Lemma hex_run_spec (s : string) :
  match hex_run s with
  | Ret (n, e) => String.length e <= String.length s
  | OutOfBounds => True
  | OutOfFuel => False
  end.
Proof.
  induction s as [|c|c c' r IH] using string_pair_ind; cbn [hex_run].
  - cbn. lia.
  - destruct (isxdigit c); cbn; auto.
  - destruct (isxdigit c); [|cbn; lia].
    destruct (hex_run r) as [[n e]| |]; cbn [bind]; cbn; auto; lia.
Qed.

Lemma hex_fill_spec (n : nat) (s : string) : hex_fill n s <> OutOfFuel.
Proof.
  revert s. induction n as [|n IH]; intros s; cbn [hex_fill]; [discriminate|].
  destruct (sscanf_2hhx s); [|discriminate].
  destruct s as [|c [|c' r]]; try discriminate.
  specialize (IH r). destruct (hex_fill n r); cbn [bind]; congruence.
Qed.

(** What one call of [parse_dn_part] does to the entry and to the heap.
    When it returns a pointer, that pointer is further into the string and
    the entry holds two fresh blocks; when it returns NULL the entry holds
    at most a fresh key; it never loops. *)
Lemma parse_dn_part_spec (str : string) (h : Heap) :
  match parse_dn_part dn_null str h with
  | Ret (Some s', e, h') =>
      String.length s' < String.length str
      /\ (exists k v, e = mkDn (Some (mkBuf (brk h) k)) (Some (mkBuf (S (brk h)) v)))
      /\ h' = mkHeap (S (S (brk h))) (S (brk h) :: brk h :: live h)
  | Ret (None, e, h') =>
      (e = dn_null /\ h' = h)
      \/ ((exists k, e = mkDn (Some (mkBuf (brk h) k)) None)
          /\ h' = mkHeap (S (brk h)) (brk h :: live h))
  | OutOfBounds => True
  | OutOfFuel => False
  end.
Proof.
  unfold parse_dn_part. destruct str as [|c0 str_1]; [exact I|].
  pose proof (skip_type_length str_1) as Hk.
  destruct (skip_type str_1) as [m s]. cbn [snd] in Hk.
  destruct s as [|c1 str1]; [left; split; reflexivity|].
  cbn [Nat.eqb mutt_mem_malloc value dn_null key].
  destruct (peek str1 =? "#").
  - pose proof (hex_run_spec (next str1)) as Hr.
    destruct (hex_run (next str1)) as [[n s]| |]; cbn [bind]; auto.
    destruct ((n =? 0)%nat || Nat.odd n).
    { right. split; [eexists|]; reflexivity. }
    pose proof (hex_fill_spec (n / 2) (next str1)) as Hf.
    destruct (hex_fill (n / 2) (next str1)); cbn [bind]; auto.
    split; [|split; [do 2 eexists|]; reflexivity].
    destruct str1 as [|c2 str2]; cbn [next String.length] in *; lia.
  - pose proof (quoted_passes str1) as Hq.
    destruct (quoted_len str1) as [[n t]|].
    + destruct Hq as (v & _ & Hf & _ & Ht). rewrite Hf. cbn [bind].
      split; [|split; [do 2 eexists|]; reflexivity].
      cbn [String.length] in *. lia.
    + right. split; [eexists|]; reflexivity.
Qed.

Lemma in_remove_all (xs l : list addr) (y : addr) :
  In y (remove_all xs l) <-> In y l /\ ~ In y xs.
Proof.
  unfold remove_all. revert l. induction xs as [|x xs IH]; intros l; cbn [fold_left].
  - cbn. tauto.
  - rewrite IH. cbn [In]. split.
    + intros [H Hn]. apply in_remove in H as [H Hne]. split; [exact H|].
      intros [E|E]; [congruence|contradiction].
    + intros [H Hn]. split; [|tauto]. apply in_in_remove; [|exact H].
      intros E. apply Hn. left. congruence.
Qed.

Lemma remove_all_app (xs L l0 : list addr) :
  (forall x, In x xs -> ~ In x l0) ->
  remove_all xs (L ++ l0) = (remove_all xs L ++ l0)%list.
Proof.
  unfold remove_all. revert L. induction xs as [|x xs IH]; intros L Hd; cbn [fold_left].
  - reflexivity.
  - rewrite remove_app, (notin_remove Nat.eq_dec l0 x (Hd x (or_introl eq_refl))).
    apply IH. intros y Hy. apply Hd. now right.
Qed.

Lemma remove_all_covered (xs L : list addr) :
  (forall x, In x L -> In x xs) -> remove_all xs L = [].
Proof.
  intros H. destruct (remove_all xs L) as [|y l] eqn:E; [reflexivity|].
  exfalso. assert (Hy : In y (remove_all xs L)) by (rewrite E; now left).
  apply in_remove_all in Hy as [Hy Hn]. exact (Hn (H y Hy)).
Qed.

Lemma remove_all_snoc (xs l : list addr) (a : addr) :
  remove Nat.eq_dec a (remove_all xs l) = remove_all (xs ++ [a]) l.
Proof.
  unfold remove_all. now rewrite fold_left_app.
Qed.

Lemma free_entries_heap (array : list DnArray) (h : Heap) :
  live (free_entries array h) = remove_all (flat_map entry_blocks array) (live h)
  /\ brk (free_entries array h) = brk h.
Proof.
  unfold free_entries, remove_all. revert h.
  induction array as [|e array IH]; intros h; cbn [fold_left flat_map]; [auto|].
  rewrite fold_left_app.
  destruct (IH (FREE (option_map buf_addr (value e))
                  (FREE (option_map buf_addr (key e)) h))) as [IHl IHb].
  rewrite IHl, IHb. unfold entry_blocks.
  destruct (key e) as [k|], (value e) as [v|]; cbn; auto.
Qed.

(** The [failure:] path gives back every block allocated since [h0]. *)
Lemma owns_failure (h0 h : Heap) (a : addr) (array : list DnArray) :
  heap_wf h0 -> owns h0 h a array ->
  live (FREE (Some a) (free_entries array h)) = live h0.
Proof.
  intros Hwf (L & Hl & Hin & Hfresh & _). cbn [FREE live].
  rewrite (proj1 (free_entries_heap array h)), remove_all_snoc, Hl.
  rewrite remove_all_app.
  - rewrite remove_all_covered; [reflexivity|].
    intros x Hx. apply in_or_app. apply Hin in Hx as [E|Hx]; [right; now left|now left].
  - intros x Hx Hx0.
    assert (HL : In x L).
    { apply Hin. apply in_app_or in Hx as [Hx|[E|[]]]; [now right|now left]. }
    apply Hfresh in HL. apply Hwf in Hx0. lia.
Qed.

Lemma owns_start (h0 : Heap) :
  owns h0 (mkHeap (S (brk h0)) (brk h0 :: live h0)) (brk h0) [].
Proof.
  exists [brk h0]. cbn. repeat split; try tauto; intros; intuition lia.
Qed.

(** Growing the array: a new block is allocated and the old one released. *)
Lemma owns_grow (h0 h : Heap) (a : addr) (array : list DnArray) :
  heap_wf h0 -> owns h0 h a array ->
  owns h0 (FREE (Some a) (mkHeap (S (brk h)) (brk h :: live h))) (brk h) array.
Proof.
  intros Hwf (L & Hl & Hin & Hfresh & Hna).
  assert (Ha : brk h0 <= a < brk h) by (apply Hfresh, Hin; now left).
  exists (brk h :: remove Nat.eq_dec a L). cbn [FREE live brk].
  repeat split.
  - rewrite Hl. cbn [remove]. destruct (Nat.eq_dec a (brk h)) as [E|_]; [lia|].
    rewrite remove_app, (notin_remove Nat.eq_dec (live h0) a); [reflexivity|].
    intros H0. apply Hwf in H0. lia.
  - intros [E|Hx]; [now left|]. apply in_remove in Hx as [Hx Hne].
    apply Hin in Hx as [E|Hx]; [contradiction|now right].
  - intros [E|Hx]; [now left|]. right. apply in_in_remove.
    + intros E. subst x. contradiction.
    + apply Hin. now right.
  - destruct H as [E|Hx]; [lia|]. apply in_remove in Hx as [Hx _].
    apply Hfresh in Hx. lia.
  - destruct H as [E|Hx]; [lia|]. apply in_remove in Hx as [Hx _].
    apply Hfresh in Hx. lia.
  - intros Hx. assert (HL : In (brk h) L) by (apply Hin; now right).
    apply Hfresh in HL. lia.
Qed.

(** Writing one more entry whose blocks were allocated on top of [h]. *)
Lemma owns_push (h0 h h' : Heap) (a : addr) (array : list DnArray) (e : DnArray) :
  owns h0 h a array ->
  brk h <= brk h' ->
  live h' = (rev (entry_blocks e) ++ live h)%list ->
  (forall x, In x (entry_blocks e) -> brk h <= x < brk h') ->
  owns h0 h' a (array ++ [e]).
Proof.
  intros (L & Hl & Hin & Hfresh & Hna) Hb Hl' He.
  assert (Ha : brk h0 <= a < brk h) by (apply Hfresh, Hin; now left).
  exists (rev (entry_blocks e) ++ L)%list.
  rewrite flat_map_app. cbn [flat_map]. rewrite app_nil_r.
  repeat split.
  - now rewrite Hl', Hl, app_assoc.
  - intros Hx. apply in_app_or in Hx as [Hx|Hx].
    + right. apply in_or_app. right. now apply in_rev.
    + apply Hin in Hx as [E|Hx]; [now left|right; apply in_or_app; now left].
  - intros [E|Hx]; apply in_or_app.
    + right. apply Hin. now left.
    + apply in_app_or in Hx as [Hx|Hx]; [right; apply Hin; now right|].
      left. now apply in_rev in Hx.
  - apply in_app_or in H as [Hx|Hx].
    + apply in_rev in Hx. apply He in Hx. lia.
    + apply Hfresh in Hx. lia.
  - apply in_app_or in H as [Hx|Hx].
    + apply in_rev in Hx. apply He in Hx. lia.
    + apply Hfresh in Hx. lia.
  - intros Hx. apply in_app_or in Hx as [Hx|Hx]; [contradiction|].
    apply He in Hx. lia.
Qed.

(** The invariant of the [while] loop: with enough fuel for the rest of
    the string, the loop ends; when it returns an array, that array is a
    run of complete entries closed by the sentinel and the heap holds just
    the array and the blocks of those entries on top of [h0]; when it
    returns NULL, the heap holds the blocks of [h0] and nothing else. *)
Lemma parse_dn_loop_spec (h0 : Heap) (Hwf : heap_wf h0) :
  forall (fuel : nat) (str : string) (a arraysize : nat) (array : list DnArray)
         (h : Heap),
    String.length str < fuel ->
    owns h0 h a array ->
    Forall (fun e => is_complete e = true) array ->
    match parse_dn_loop fuel str a arraysize array h with
    | Ret (Some (a', dn), h') =>
        exists es, dn = (es ++ [dn_null])%list
                   /\ Forall (fun e => is_complete e = true) es
                   /\ owns h0 h' a' es
    | Ret (None, h') => live h' = live h0
    | OutOfBounds => True
    | OutOfFuel => False
    end.
Proof.
  induction fuel as [|fuel IH]; intros str a arraysize array h Hfuel Hown Hc; [lia|].
  cbn [parse_dn_loop].
  pose proof (skip_spaces_length str) as Hsp.
  destruct (skip_spaces str) as [|c0 r0] eqn:Es.
  { exists array. auto. }
  assert (Hg : exists a1 as1 h1,
             (if Nat.leb arraysize (length array)
              then let (a2, h') := mutt_mem_malloc h in
                   (a2, arraysize + 5, FREE (Some a) h')
              else (a, arraysize, h)) = (a1, as1, h1)
             /\ owns h0 h1 a1 array).
  { destruct (Nat.leb arraysize (length array)).
    - do 3 eexists. split; [reflexivity|]. now apply owns_grow.
    - do 3 eexists. split; [reflexivity|]. exact Hown. }
  destruct Hg as (a1 & as1 & h1 & -> & Hown1).
  pose proof (parse_dn_part_spec (String c0 r0) h1) as Hp.
  destruct (parse_dn_part dn_null (String c0 r0) h1) as [[[ret e] h2]| |];
    cbn [bind]; auto.
  destruct ret as [s'|].
  - destruct Hp as (Hlen & (k & v & ->) & ->).
    assert (Hown2 : owns h0 (mkHeap (S (S (brk h1))) (S (brk h1) :: brk h1 :: live h1)) a1
                      (array ++ [mkDn (Some (mkBuf (brk h1) k))
                                      (Some (mkBuf (S (brk h1)) v))])).
    { apply (owns_push h0 h1); auto; cbn; intros; lia. }
    assert (Hc2 : Forall (fun e => is_complete e = true)
                    (array ++ [mkDn (Some (mkBuf (brk h1) k))
                                    (Some (mkBuf (S (brk h1)) v))])).
    { apply Forall_app. split; [exact Hc|]. now constructor. }
    pose proof (skip_spaces_length s') as Hsp'.
    destruct (skip_spaces s') as [|c r].
    + apply IH; auto. cbn [String.length] in *. lia.
    + destruct ((c =? ",") || (c =? ";") || (c =? "+")).
      * apply IH; auto. cbn [String.length] in *. lia.
      * now apply owns_failure.
  - apply owns_failure; [exact Hwf|].
    destruct Hp as [[-> ->]|[(k & ->) ->]].
    + apply (owns_push h0 h1); auto; cbn; intros; tauto.
    + apply (owns_push h0 h1); auto; cbn; intros; lia.
Qed.

(** Every run of [parse_dn] ends; when it returns an array, the array is
    complete and closed by the sentinel and nothing but it and its strings
    has been allocated; when it returns NULL, every block it allocated has
    been released. *)
Lemma parse_dn_outcome (str : string) (h : Heap) :
  heap_wf h ->
  match parse_dn str h with
  | Ret (Some (a, dn), h') =>
      exists es, dn = (es ++ [dn_null])%list
                 /\ Forall (fun e => is_complete e = true) es
                 /\ owns h h' a es
  | Ret (None, h') => live h' = live h
  | OutOfBounds => True
  | OutOfFuel => False
  end.
Proof.
  intros Hwf. unfold parse_dn. cbn [mutt_mem_malloc].
  apply parse_dn_loop_spec; auto using owns_start.
Qed.

Lemma parse_dn_terminates (str : string) (h : Heap) : parse_dn str h <> OutOfFuel.
Proof.
  unfold parse_dn. cbn [mutt_mem_malloc].
  assert (H : forall fuel s a n array h1,
             String.length s < fuel -> parse_dn_loop fuel s a n array h1 <> OutOfFuel).
  { induction fuel as [|fuel IH]; intros s a n array h1 Hf; [lia|].
    cbn [parse_dn_loop].
    pose proof (skip_spaces_length s) as Hsp.
    destruct (skip_spaces s) as [|c0 r0]; [discriminate|].
    destruct (if Nat.leb n (length array) then _ else _) as [[a1 n1] h2].
    pose proof (parse_dn_part_spec (String c0 r0) h2) as Hp.
    destruct (parse_dn_part dn_null (String c0 r0) h2) as [[[ret e] h3]| |];
      cbn [bind]; try discriminate; [|contradiction].
    destruct ret as [s'|]; [|discriminate].
    destruct Hp as (Hlen & _).
    pose proof (skip_spaces_length s') as Hsp'.
    destruct (skip_spaces s') as [|c r].
    - apply IH. cbn [String.length] in *. lia.
    - destruct ((c =? ",") || (c =? ";") || (c =? "+")); [|discriminate].
      apply IH. cbn [String.length] in *. lia. }
  apply H. lia.
Qed.

(** ** Reading outside the string *)

Lemma all_chars_app (p : ascii -> bool) (a b : string) :
  all_chars p (a ++ b) = all_chars p a && all_chars p b.
Proof.
  induction a as [|c a IH]; cbn; [reflexivity|]. now rewrite IH, andb_assoc.
Qed.

Lemma skip_spaces_all (p : ascii -> bool) (s : string) :
  all_chars p s = true -> all_chars p (skip_spaces s) = true.
Proof.
  induction s as [|c s IH]; cbn; [auto|]. intros H.
  destruct (c =? " "); [|exact H].
  apply andb_true_iff in H as [_ H]. auto.
Qed.

Lemma skip_type_all (p : ascii -> bool) (s : string) :
  all_chars p s = true -> all_chars p (snd (skip_type s)) = true.
Proof.
  induction s as [|c s IH]; cbn; [auto|]. intros H.
  destruct (c =? "="); [exact H|].
  apply andb_true_iff in H as [_ H].
  destruct (skip_type s) as [n e]. cbn in *. auto.
Qed.

Lemma quoted_len_all (p : ascii -> bool) (s : string) :
  all_chars p s = true ->
  match quoted_len s with
  | Some (_, t) => all_chars p t = true
  | None => True
  end.
Proof.
  induction s as [s IH] using string_length_ind. intros H.
  destruct s as [|c r]; cbn [quoted_len]; [exact H|].
  cbn [all_chars] in H. apply andb_true_iff in H as [Hc Hr].
  destruct (c =? "\").
  - destruct r as [|e r1]; [exact I|].
    cbn [all_chars] in Hr. apply andb_true_iff in Hr as [He Hr1].
    destruct (is_escapable e).
    + specialize (IH r1 ltac:(cbn; lia) Hr1).
      destruct (quoted_len r1) as [[n t]|]; cbn [option_map]; auto.
    + destruct r1 as [|e1 r2]; [exact I|].
      destruct (isxdigit e && isxdigit e1); [|exact I].
      cbn [all_chars] in Hr1. apply andb_true_iff in Hr1 as [_ Hr2].
      specialize (IH r2 ltac:(cbn; lia) Hr2).
      destruct (quoted_len r2) as [[n t]|]; cbn [option_map]; auto.
  - destruct (c =? dquote); [exact I|].
    destruct (is_delim c).
    + cbn [all_chars]. now rewrite Hc, Hr.
    + specialize (IH r ltac:(cbn; lia) Hr).
      destruct (quoted_len r) as [[n t]|]; cbn [option_map]; auto.
Qed.

Lemma peek_not_hash (s : string) :
  all_chars not_hash s = true -> (peek s =? "#") = false.
Proof.
  destruct s as [|c s]; [reflexivity|]. cbn [all_chars peek]. intros H.
  apply andb_true_iff in H as [H _]. now apply negb_true_iff in H.
Qed.

Lemma parse_dn_part_in_bounds (c0 : ascii) (r0 : string) (h : Heap) :
  all_chars not_hash r0 = true ->
  match parse_dn_part dn_null (String c0 r0) h with
  | Ret (Some s', _, _) => all_chars not_hash s' = true
  | Ret (None, _, _) => True
  | OutOfBounds => False
  | OutOfFuel => True
  end.
Proof.
  intros H. unfold parse_dn_part.
  pose proof (skip_type_all not_hash r0 H) as Hs.
  destruct (skip_type r0) as [m s]. cbn [snd] in Hs.
  destruct s as [|c1 str1]; [exact I|].
  cbn [all_chars] in Hs. apply andb_true_iff in Hs as [_ Hs].
  cbn [Nat.eqb mutt_mem_malloc]. rewrite (peek_not_hash str1 Hs).
  pose proof (quoted_passes str1) as Hq.
  pose proof (quoted_len_all not_hash str1 Hs) as Ha.
  destruct (quoted_len str1) as [[n t]|]; [|exact I].
  destruct Hq as (v & _ & Hf & _). rewrite Hf. exact Ha.
Qed.

(** Only the scan of a ['#'] value can leave the string: on an input
    without ['#'], [parse_dn] stays inside it. *)
Lemma parse_dn_in_bounds (str : string) (h : Heap) :
  all_chars not_hash str = true -> parse_dn str h <> OutOfBounds.
Proof.
  unfold parse_dn. cbn [mutt_mem_malloc]. generalize (S (String.length str)) as fuel.
  generalize (mkHeap (S (brk h)) (brk h :: live h)) as h1.
  generalize (brk h) as a. generalize 7 as n. generalize (@nil DnArray) as array.
  intros array n a h1 fuel. revert str array n a h1.
  induction fuel as [|fuel IH]; intros str array n a h1 H; [discriminate|].
  cbn [parse_dn_loop].
  pose proof (skip_spaces_all not_hash str H) as Hsp.
  destruct (skip_spaces str) as [|c0 r0]; [discriminate|].
  cbn [all_chars] in Hsp. apply andb_true_iff in Hsp as [_ Hr0].
  destruct (if Nat.leb n (length array) then _ else _) as [[a1 n1] h2].
  pose proof (parse_dn_part_in_bounds c0 r0 h2 Hr0) as Hp.
  destruct (parse_dn_part dn_null (String c0 r0) h2) as [[[ret e] h3]| |];
    cbn [bind]; try discriminate; [|contradiction].
  destruct ret as [s'|]; [|discriminate].
  pose proof (skip_spaces_all not_hash s' Hp) as Hsp'.
  destruct (skip_spaces s') as [|c r].
  - now apply IH.
  - destruct ((c =? ",") || (c =? ";") || (c =? "+")); [|discriminate].
    cbn [all_chars] in Hsp'. apply andb_true_iff in Hsp' as [_ Hr]. now apply IH.
Qed.

(** C5.  On ["CN=#A"] the scan of the ['#'] value tests its one digit, steps
    two characters on, over the terminating NUL, and reads outside the
    string: [parse_dn] returns neither an attribute sequence nor NULL, and
    neither does [parse_and_print_user_id], which passes the string on
    because it starts with a letter. *)
Theorem parse_dn_reads_past_terminator :
  parse_dn "CN=#A" empty_heap = OutOfBounds
  /\ parse_and_print_user_id utf8_display EmptyString "CN=#A" empty_heap = OutOfBounds.
Proof.
  split; reflexivity.
Qed.

(** ** Parsing what the renderer wrote *)

Lemma skip_type_no_equals (s : string) :
  all_chars not_equals s = true -> snd (skip_type s) = EmptyString.
Proof.
  induction s as [|c s IH]; cbn; [auto|]. unfold not_equals at 1. intros H.
  apply andb_true_iff in H as [Hc H]. apply negb_true_iff in Hc. rewrite Hc.
  specialize (IH H). destruct (skip_type s) as [n e]. exact IH.
Qed.

Lemma skip_spaces_blank (s : string) :
  all_chars is_space s
  = match skip_spaces s with EmptyString => true | String _ _ => false end.
Proof.
  induction s as [|c s IH]; cbn; [reflexivity|]. unfold is_space at 1.
  destruct (c =? " "); [exact IH|reflexivity].
Qed.

(** A string without ['=']: NULL, unless it holds nothing but spaces. *)
Lemma parse_dn_no_equals (s : string) :
  all_chars not_equals s = true ->
  parse_dn_result s = Ret (if all_chars is_space s then Some [] else None).
Proof.
  intros H. unfold parse_dn_result, parse_dn.
  cbn [mutt_mem_malloc parse_dn_loop]. rewrite skip_spaces_blank.
  pose proof (skip_spaces_all not_equals s H) as Hs.
  destruct (skip_spaces s) as [|c0 r0]; [reflexivity|].
  cbn [all_chars] in Hs. apply andb_true_iff in Hs as [_ Hr0].
  cbn [Nat.leb length]. unfold parse_dn_part.
  pose proof (skip_type_no_equals r0 Hr0) as Hk.
  destruct (skip_type r0) as [m e]. cbn [snd] in Hk. subst e. reflexivity.
Qed.

Section RenderedText.

Variable conv : string -> string.

Lemma print_dn_part_from_all (p : ascii -> bool) (k : string) (dn : list Attr) :
  all_chars p " + " = true ->
  Forall (fun a => all_chars p (text_of conv a) = true) dn ->
  forall (fp : string) (any : bool),
    all_chars p fp = true ->
    all_chars p (fst (print_dn_part_from conv fp dn k any)) = true.
Proof.
  intros Hsep Hdn. induction Hdn as [|a dn Ha Hdn IH]; intros fp any Hfp;
    cbn [print_dn_part_from]; [exact Hfp|].
  destruct (strcmp_eq (a_key a) k); [|now apply IH].
  apply IH. rewrite print_utf8_value, all_chars_app, Ha, andb_true_r.
  destruct any; [|exact Hfp].
  unfold fputs. rewrite all_chars_app, Hfp. exact Hsep.
Qed.

Lemma print_std_all (p : ascii -> bool) (dn : list Attr) (parts : list string) :
  all_chars p " + " = true -> all_chars p ", " = true ->
  Forall (fun a => all_chars p (text_of conv a) = true) dn ->
  forall (fp : string) (any : bool),
    all_chars p fp = true ->
    all_chars p (fst (print_std conv fp dn parts any)) = true.
Proof.
  intros Hplus Hsep Hdn. induction parts as [|k parts IH]; intros fp any Hfp;
    cbn [print_std]; [exact Hfp|].
  unfold print_dn_part.
  pose proof (print_dn_part_from_all p k dn Hplus Hdn
                (if any then fputs ", " fp else fp) false) as H.
  destruct (print_dn_part_from conv (if any then fputs ", " fp else fp) dn k false)
    as [fp1 any1]. cbn [fst] in H. apply IH, H.
  destruct any; [|exact Hfp]. unfold fputs. rewrite all_chars_app, Hfp. exact Hsep.
Qed.

Lemma print_rest_all (p : ascii -> bool) (dn : list Attr) :
  all_chars p " + " = true -> all_chars p ", " = true -> all_chars p "(" = true ->
  Forall (fun a => all_chars p (text_of conv a) = true) dn ->
  forall (fp : string) (any any2 : bool),
    all_chars p fp = true ->
    all_chars p (fst (print_rest conv fp dn any any2)) = true.
Proof.
  intros Hplus Hsep Hpar Hdn. induction Hdn as [|a dn Ha Hdn IH];
    intros fp any any2 Hfp; cbn [print_rest]; [exact Hfp|].
  destruct (not_stdpart (a_key a)); [|now apply IH].
  unfold print_dn_part.
  match goal with
  | |- context [print_dn_part_from conv ?f ?d ?k false] =>
      pose proof (print_dn_part_from_all p k d Hplus (Forall_cons a Ha Hdn) f false) as H;
      destruct (print_dn_part_from conv f d k false) as [fp1 any1]
  end.
  cbn [fst] in H. apply IH, H.
  assert (H1 : all_chars p (if any then fputs ", " fp else fp) = true).
  { destruct any; [|exact Hfp]. unfold fputs. rewrite all_chars_app, Hfp. exact Hsep. }
  destruct any2; cbn [negb]; [exact H1|].
  unfold fputs at 1. rewrite all_chars_app, H1. exact Hpar.
Qed.

(** When no value holds an ['='], neither does what is written. *)
Lemma render_dn_no_equals (dn : list Attr) :
  Forall (fun a => all_chars not_equals (text_of conv a) = true) dn ->
  all_chars not_equals (render_dn conv dn) = true.
Proof.
  intros Hdn. unfold render_dn, print_dn_parts.
  pose proof (print_std_all not_equals dn stdpart eq_refl eq_refl Hdn
                EmptyString false eq_refl) as H1.
  destruct (print_std conv EmptyString dn stdpart false) as [fp any]. cbn [fst] in H1.
  pose proof (print_rest_all not_equals dn eq_refl eq_refl eq_refl Hdn
                fp any false H1) as H2.
  destruct (print_rest conv fp dn any false) as [fp2 any2]. cbn [fst] in H2.
  destruct any2; [|exact H2]. unfold fputs. now rewrite all_chars_app, H2.
Qed.

End RenderedText.

(** C8, as stated, fails: the sequence [{C,"DE"}] has one type, from the
    priority list; it is written as ["DE"], which [parse_dn] rejects, so
    there is no parse result to render again. *)
Lemma render_then_parse_fails :
  NoDup (map type_of [mkAttr "C" "DE"])
  /\ Forall (fun a => not_stdpart (a_key a) = false) [mkAttr "C" "DE"]
  /\ render_dn utf8_display [mkAttr "C" "DE"] = "DE"%string
  /\ parse_dn_result "DE" = Ret None
  /\ ~ round_trip utf8_display [mkAttr "C" "DE"].
Proof.
  split; [repeat constructor; simpl; tauto|].
  split; [repeat constructor|].
  split; [reflexivity|]. split; [reflexivity|].
  intros (dn' & Hp & _). vm_compute in Hp. discriminate Hp.
Qed.

(** C8, amended.  The renderer writes values only, never their
    [type=] labels.  For every attribute sequence none of whose values (as
    written) holds an ['='], [parse_dn] applied to the rendered string
    returns NULL when that string has a character other than a space and the
    empty sequence otherwise; parsing and rendering again gives back the
    rendered string exactly when that string is empty. *)
Theorem render_parse_round_trip (conv : string -> string) (dn : list Attr) :
  Forall (fun a => all_chars not_equals (text_of conv a) = true) dn ->
  parse_dn_result (render_dn conv dn)
  = Ret (if all_chars is_space (render_dn conv dn) then Some [] else None)
  /\ (round_trip conv dn <-> render_dn conv dn = EmptyString).
Proof.
  intros Hdn.
  pose proof (parse_dn_no_equals _ (render_dn_no_equals conv dn Hdn)) as Hp.
  split; [exact Hp|]. split.
  - intros (dn' & Hp' & Hr). rewrite Hp in Hp'.
    destruct (all_chars is_space (render_dn conv dn)); [|discriminate Hp'].
    inversion Hp'; subst dn'. rewrite <- Hr. reflexivity.
  - intros E. exists []. rewrite E. split; reflexivity.
Qed.

Lemma render_parse_round_trip_witness :
  parse_dn_result
    (render_dn utf8_display [mkAttr "CN" "Alice"; mkAttr "O" "Acme"]) = Ret None
  /\ ~ round_trip utf8_display [mkAttr "CN" "Alice"; mkAttr "O" "Acme"].
Proof.
  assert (Hv : Forall (fun a => all_chars not_equals (text_of utf8_display a) = true)
                 [mkAttr "CN" "Alice"; mkAttr "O" "Acme"])
    by (repeat constructor).
  pose proof (render_parse_round_trip utf8_display
                [mkAttr "CN" "Alice"; mkAttr "O" "Acme"] Hv) as [Hp Hrt].
  split; [exact Hp|].
  intros H. apply Hrt in H. vm_compute in H. discriminate H.
Defined.

(** ** Further properties of the parser *)

Lemma str_length_app (a b : string) :
  String.length (a ++ b) = String.length a + String.length b.
Proof. induction a as [|c a IH]; cbn; [reflexivity|now rewrite IH]. Qed.

Lemma substring_prefix (a b : string) : substring 0 (String.length a) (a ++ b) = a.
Proof.
  induction a as [|c a IH]; cbn.
  - destruct b; reflexivity.
  - now rewrite IH.
Qed.

Lemma skip_type_type (k rest : string) :
  all_chars not_equals k = true ->
  skip_type (k ++ String "=" rest) = (String.length k, String "=" rest).
Proof.
  induction k as [|c k IH]; intros H; [reflexivity|].
  cbn [all_chars] in H. apply andb_true_iff in H as [Hc H].
  unfold not_equals in Hc. apply negb_true_iff in Hc.
  cbn [String.append skip_type String.length]. now rewrite Hc, (IH H).
Qed.

Lemma decode_quoted_escape (v t : string) :
  decode_quoted (escape_value v ++ t)
  = option_map (fun '(w, u) => ((v ++ w)%string, u)) (decode_quoted t).
Proof.
  induction v as [|c v IH].
  - cbn. destruct (decode_quoted t) as [[w u]|]; reflexivity.
  - cbn [escape_value]. rewrite str_app_assoc. unfold escape_char.
    destruct (is_escapable c) eqn:He.
    + cbn [String.append decode_quoted Ascii.eqb Bool.eqb]. rewrite He, IH.
      destruct (decode_quoted t) as [[w u]|]; reflexivity.
    + destruct (c =? "000") eqn:Hz.
      * apply Ascii.eqb_eq in Hz. subst c.
        cbn [String.append]. change (decode_quoted (String "\" (String "0" (String "0" (escape_value v ++ t)))))
          with (option_map (fun '(v0, t0) => (String "000" v0, t0))
                  (decode_quoted (escape_value v ++ t))).
        rewrite IH. destruct (decode_quoted t) as [[w u]|]; reflexivity.
      * unfold is_escapable in He.
        apply orb_false_iff in He as [He Hs]. apply orb_false_iff in He as [He Hq].
        apply orb_false_iff in He as [Hd Hb].
        cbn [String.append decode_quoted]. rewrite Hb, Hq, Hd, IH.
        destruct (decode_quoted t) as [[w u]|]; reflexivity.
Qed.

Lemma peek_escape_value (v t : string) :
  (peek t =? "#") = false -> (peek (escape_value v ++ t) =? "#") = false.
Proof.
  intros Ht. destruct v as [|c v]; [exact Ht|].
  cbn [escape_value]. rewrite str_app_assoc. unfold escape_char.
  destruct (is_escapable c) eqn:He; [reflexivity|].
  destruct (c =? "000"); [reflexivity|].
  cbn [String.append peek]. unfold is_escapable, is_delim in He.
  destruct (c =? "#"); [|reflexivity].
  rewrite !orb_true_r in He. cbn in He. discriminate He.
Qed.

Lemma component_end_decode (t : string) :
  component_end t ->
  decode_quoted t = Some (EmptyString, t) /\ (peek t =? "#") = false.
Proof.
  intros [->|(d & r & -> & Hd)]; [split; reflexivity|].
  unfold is_separator in Hd.
  destruct (d =? ",") eqn:E1; [apply Ascii.eqb_eq in E1; subst; split; reflexivity|].
  destruct (d =? ";") eqn:E2; [apply Ascii.eqb_eq in E2; subst; split; reflexivity|].
  destruct (d =? "+") eqn:E3; [apply Ascii.eqb_eq in E3; subst; split; reflexivity|].
  discriminate Hd.
Qed.

(** One call of [parse_dn_part] on a written component. *)
Lemma parse_dn_part_rdn (a : Attr) (t : string) (h : Heap) :
  valid_type (a_key a) = true ->
  component_end t ->
  parse_dn_part dn_null (rdn_string a ++ t) h
  = Ret (Some t, entry_of (brk h) (S (brk h)) a,
         mkHeap (S (S (brk h))) (S (brk h) :: brk h :: live h)).
Proof.
  intros Hk Ht. unfold rdn_string, entry_of.
  destruct (a_key a) as [|c0 k] eqn:Ek; [discriminate Hk|].
  cbn [valid_type] in Hk. apply andb_true_iff in Hk as [Hk _].
  apply andb_true_iff in Hk as [_ Hk]. cbn [all_chars] in Hk.
  apply andb_true_iff in Hk as [_ Hk].
  rewrite str_app_assoc. cbn [String.append]. unfold parse_dn_part.
  rewrite (skip_type_type k _ Hk).
  replace (substring 0 (S (String.length k))
             (String c0 (k ++ String "=" (escape_value (a_value a) ++ t))))
    with (String c0 k).
  2:{ cbn [substring]. now rewrite substring_prefix. }
  destruct (component_end_decode t Ht) as [Hd Hp].
  cbn [Nat.eqb mutt_mem_malloc]. rewrite (peek_escape_value _ _ Hp).
  pose proof (quoted_passes (escape_value (a_value a) ++ t)) as Hq.
  rewrite decode_quoted_escape, Hd in Hq. cbn [option_map] in Hq.
  rewrite str_app_nil_r in Hq.
  destruct (quoted_len (escape_value (a_value a) ++ t)) as [[n u]|].
  - destruct Hq as (v & Hv & Hf & _). inversion Hv; subst. rewrite Hf. reflexivity.
  - discriminate Hq.
Qed.

Lemma skip_spaces_blanks (sp s : string) :
  all_chars is_space sp = true -> skip_spaces (sp ++ s) = skip_spaces s.
Proof.
  induction sp as [|c sp IH]; intros H; [reflexivity|].
  cbn [all_chars] in H. apply andb_true_iff in H as [Hc H].
  unfold is_space in Hc. cbn [String.append skip_spaces]. now rewrite Hc, IH.
Qed.

Lemma separator_not_space (d : ascii) : is_separator d = true -> (d =? " ") = false.
Proof.
  unfold is_separator. intros H.
  destruct (d =? " ") eqn:E; [|reflexivity].
  apply Ascii.eqb_eq in E. subst d. discriminate H.
Qed.

Lemma dn_attrs_entries (es : list DnArray) (attrs : list Attr) :
  Forall2 (fun e x => exists pk pv, e = entry_of pk pv x) es attrs ->
  dn_attrs (es ++ [dn_null]) = attrs.
Proof.
  induction 1 as [|e x es attrs (pk & pv & ->) _ IH]; [reflexivity|].
  cbn [app dn_attrs entry_of buf_str]. rewrite IH. now destruct x.
Qed.

Section DnString.

Variable d : ascii.
Variable sp : string.
Hypothesis Hd : is_separator d = true.
Hypothesis Hsp : all_chars is_space sp = true.

(** The loop of [parse_dn] on a written DN string, possibly after blanks:
    it returns the entries of the attributes, in order, behind those already
    in the array. *)
Lemma parse_dn_loop_dn_string (attrs : list Attr) :
  Forall (fun x => valid_type (a_key x) = true) attrs ->
  forall (fuel : nat) (sp0 : string) (a n : nat) (array : list DnArray) (h : Heap),
    all_chars is_space sp0 = true ->
    String.length (sp0 ++ dn_string d sp attrs) < fuel ->
    exists a' h' es,
      parse_dn_loop fuel (sp0 ++ dn_string d sp attrs) a n array h
      = Ret (Some (a', (array ++ es ++ [dn_null])%list), h')
      /\ Forall2 (fun e x => exists pk pv, e = entry_of pk pv x) es attrs.
Proof.
  induction 1 as [|x rest Hx Hrest IH]; intros fuel sp0 a n array h Hsp0 Hfuel.
  - destruct fuel as [|fuel]; [lia|]. cbn [parse_dn_loop].
    rewrite (skip_spaces_blanks sp0 _ Hsp0). cbn [dn_string map String.concat skip_spaces].
    exists a, h, []. split; [reflexivity|constructor].
  - (* the string is the first component followed by [t] *)
    assert (Ht : exists t sp1,
               dn_string d sp (x :: rest) = (rdn_string x ++ t)%string
               /\ component_end t
               /\ all_chars is_space sp1 = true
               /\ (t = EmptyString /\ rest = []
                   \/ t = String d (sp1 ++ dn_string d sp rest))).
    { destruct rest as [|y rest'].
      - exists EmptyString, EmptyString. unfold dn_string. cbn [map String.concat].
        rewrite str_app_nil_r. repeat split; [now left|now left].
      - exists (String d (sp ++ dn_string d sp (y :: rest'))), sp.
        unfold dn_string. cbn [map]. rewrite concat_cons2.
        repeat split; [right; eauto|exact Hsp|now right]. }
    destruct Ht as (t & sp1 & Es & Ht & Hsp1 & Hcase). rewrite Es in Hfuel |- *.
    destruct fuel as [|fuel]; [lia|]. cbn [parse_dn_loop].
    rewrite (skip_spaces_blanks sp0 _ Hsp0).
    assert (Ec : exists c0 r0, (rdn_string x ++ t)%string = String c0 r0
                               /\ (c0 =? " ") = false).
    { unfold rdn_string. destruct (a_key x) as [|c0 k]; [discriminate Hx|].
      cbn [valid_type] in Hx. apply andb_true_iff in Hx as [Hx _].
      apply andb_true_iff in Hx as [Hx _]. apply negb_true_iff in Hx.
      cbn [String.append]. eauto. }
    destruct Ec as (c0 & r0 & Ec & Hc0).
    rewrite str_length_app in Hfuel.
    assert (Hrdn : 2 <= String.length (rdn_string x)).
    { unfold rdn_string. destruct (a_key x) as [|c1 k]; [discriminate Hx|].
      cbn [String.append String.length]. rewrite str_length_app.
      cbn [String.length]. lia. }
    rewrite str_length_app in Hfuel.
    rewrite Ec. cbn [skip_spaces]. rewrite Hc0.
    destruct (if Nat.leb n (length array) then _ else _) as [[a1 n1] h1].
    rewrite <- Ec, (parse_dn_part_rdn x t h1 Hx Ht). cbn [bind].
    destruct Hcase as [[-> ->] | ->].
    + cbn [skip_spaces].
      destruct (IH fuel EmptyString a1 n1
                  (array ++ [entry_of (brk h1) (S (brk h1)) x])%list
                  (mkHeap (S (S (brk h1))) (S (brk h1) :: brk h1 :: live h1))
                  eq_refl ltac:(cbn in *; lia)) as (a' & h' & es & Hrun & Hes).
      cbn [String.append dn_string map String.concat] in Hrun.
      exists a', h', (entry_of (brk h1) (S (brk h1)) x :: es). split.
      * rewrite Hrun, <- app_assoc. reflexivity.
      * constructor; eauto.
    + cbn [skip_spaces]. rewrite (separator_not_space d Hd).
      fold (is_separator d). rewrite Hd.
      destruct (IH fuel sp1 a1 n1
                  (array ++ [entry_of (brk h1) (S (brk h1)) x])%list
                  (mkHeap (S (S (brk h1))) (S (brk h1) :: brk h1 :: live h1))
                  Hsp1 ltac:(cbn [String.length] in *; lia))
        as (a' & h' & es & Hrun & Hes).
      exists a', h', (entry_of (brk h1) (S (brk h1)) x :: es). split.
      * rewrite Hrun, <- app_assoc. reflexivity.
      * constructor; eauto.
Qed.

End DnString.

(** X1.  Writing and reading back.  Take any attribute sequence whose types
    are usable (not empty, no leading space, no ['='], no NUL), write every
    attribute as [type=value] with the value escaped (a backslash in front
    of [, = + < > # ; \], the double quote and the space, [\00] for NUL) and
    join the components with one of [,], [;], [+] followed by any number of
    spaces: [parse_dn] returns exactly that sequence, whatever bytes the
    values hold. *)
Theorem parse_dn_dn_string (d : ascii) (sp : string) (attrs : list Attr) :
  is_separator d = true ->
  all_chars is_space sp = true ->
  Forall (fun x => valid_type (a_key x) = true) attrs ->
  parse_dn_result (dn_string d sp attrs) = Ret (Some attrs).
Proof.
  intros Hd Hsp Hattrs. unfold parse_dn_result, parse_dn. cbn [mutt_mem_malloc].
  destruct (parse_dn_loop_dn_string d sp Hd Hsp attrs Hattrs
              (S (String.length (dn_string d sp attrs))) EmptyString
              (brk empty_heap) 7 [] (mkHeap (S (brk empty_heap)) (brk empty_heap :: live empty_heap))
              eq_refl ltac:(cbn [String.append]; lia))
    as (a' & h' & es & Hrun & Hes).
  cbn [String.append app] in Hrun. rewrite Hrun. cbn [bind option_map].
  now rewrite (dn_attrs_entries es attrs Hes).
Qed.

Lemma parse_dn_dn_string_witness :
  dn_string ";" " " [mkAttr "CN" "Doe, John"; mkAttr "O" "#1 <A+B>"]
  = "CN=Doe\,\ John; O=\#1\ \<A\+B\>"%string
  /\ parse_dn_result "CN=Doe\,\ John; O=\#1\ \<A\+B\>"
     = Ret (Some [mkAttr "CN" "Doe, John"; mkAttr "O" "#1 <A+B>"]).
Proof.
  split; [reflexivity|].
  apply (parse_dn_dn_string ";" " " [mkAttr "CN" "Doe, John"; mkAttr "O" "#1 <A+B>"]).
  - reflexivity.
  - reflexivity.
  - repeat constructor.
Defined.

(** ** Memory and bounds *)

(** X2.  The memory of [parse_dn].  From a heap in order, a call always
    ends.  When it returns an array, the entries in front of the sentinel
    all have a key and a value, the caller reads as many attributes as there
    are entries, and the blocks live on top of the caller's are exactly the
    array and the strings of its entries.  When it returns NULL, the live
    blocks are those of the caller again: everything allocated on the way
    has been released.  (The third outcome is a read outside the string.) *)
Theorem parse_dn_memory (str : string) (h : Heap) :
  heap_wf h ->
  match parse_dn str h with
  | Ret (Some (a, dn), h') =>
      exists es, dn = (es ++ [dn_null])%list
                 /\ Forall (fun e => is_complete e = true) es
                 /\ length (dn_attrs dn) = length es
                 /\ owns h h' a es
  | Ret (None, h') => live h' = live h
  | OutOfBounds => True
  | OutOfFuel => False
  end.
Proof.
  intros Hwf. pose proof (parse_dn_outcome str h Hwf) as H.
  destruct (parse_dn str h) as [[[[a dn]|] h']| |]; auto.
  destruct H as (es & -> & Hc & Hown). exists es. repeat split; auto.
  clear Hown. induction Hc as [|e es He Hc IH]; [reflexivity|].
  destruct e as [[k|] [v|]]; try discriminate He. cbn [app dn_attrs length].
  now rewrite IH.
Qed.

Lemma parse_dn_memory_witness :
  (exists h', parse_dn "CN=a,OU=b,O" empty_heap = Ret (None, h') /\ live h' = [])
  /\ (exists a dn h', parse_dn "CN=a,OU=b" empty_heap = Ret (Some (a, dn), h')
                      /\ length (dn_attrs dn) = 2 /\ length (live h') = 5).
Proof.
  assert (Hwf : heap_wf empty_heap) by (intros x []).
  split.
  - pose proof (parse_dn_memory "CN=a,OU=b,O" empty_heap Hwf) as H.
    destruct (parse_dn "CN=a,OU=b,O" empty_heap) as [[[[a dn]|] h']| |] eqn:E;
      vm_compute in E; try discriminate E.
    exists h'. split; [reflexivity|exact H].
  - pose proof (parse_dn_memory "CN=a,OU=b" empty_heap Hwf) as H.
    destruct (parse_dn "CN=a,OU=b" empty_heap) as [[[[a dn]|] h']| |] eqn:E;
      vm_compute in E; try discriminate E.
    destruct H as (es & Hdn & _ & Hlen & _).
    exists a, dn, h'. split; [reflexivity|].
    inversion E; subst. split; reflexivity.
Defined.

(** The dispatch of [parse_and_print_user_id] on the first character. *)
Lemma parse_and_print_user_id_cases (conv : string -> string) (fp : string)
    (c : ascii) (r : string) (h : Heap) :
  parse_and_print_user_id conv fp (String c r) h
  = if c =? "<" then
      match strchr r ">" with
      | Some n => Ret (print_utf8 conv fp r n, h)
      | None => Ret (fp, h)
      end
    else if c =? "(" then
      Ret (fputs "[Can't display this user ID (unknown encoding)]" fp, h)
    else if negb (isalnum c) then
      Ret (fputs "[Can't display this user ID (invalid encoding)]" fp, h)
    else
      ' (res, h1) <- parse_dn (String c r) h ;;
      match res with
      | None => Ret (fputs "[Can't display this user ID (invalid DN)]" fp, h1)
      | Some (a, dn) =>
          Ret (print_dn_parts conv fp (dn_attrs dn),
               FREE (Some a) (free_entries (dn_entries dn) h1))
      end.
Proof.
  ascii_cases c; reflexivity.
Qed.

Lemma dn_entries_complete (es : list DnArray) :
  Forall (fun e => is_complete e = true) es -> dn_entries (es ++ [dn_null]) = es.
Proof.
  induction 1 as [|e es He _ IH]; [reflexivity|].
  cbn [app dn_entries]. destruct e as [[k|] [v|]]; try discriminate He.
  cbn [key]. now rewrite IH.
Qed.

(** X3.  [parse_and_print_user_id] keeps nothing: from a heap in order,
    whatever the user id, the call ends and the blocks live afterwards are
    those live before, on the paths that print a placeholder as well as
    after a DN has been parsed and printed. *)
Theorem parse_and_print_user_id_releases (conv : string -> string)
    (fp userid : string) (h : Heap) :
  heap_wf h ->
  match parse_and_print_user_id conv fp userid h with
  | Ret (_, h') => live h' = live h
  | OutOfBounds => True
  | OutOfFuel => False
  end.
Proof.
  intros Hwf. destruct userid as [|c r]; [reflexivity|].
  rewrite parse_and_print_user_id_cases.
  destruct (c =? "<"); [destruct (strchr r ">"); reflexivity|].
  destruct (c =? "("); [reflexivity|].
  destruct (negb (isalnum c)); [reflexivity|].
  pose proof (parse_dn_outcome (String c r) h Hwf) as H.
  destruct (parse_dn (String c r) h) as [[[[a dn]|] h']| |]; cbn [bind]; auto.
  destruct H as (es & -> & Hc & Hown).
  rewrite (dn_entries_complete es Hc). now apply owns_failure.
Qed.

Lemma parse_and_print_user_id_releases_witness :
  exists out h',
    parse_and_print_user_id utf8_display EmptyString "CN=Alice,O=Acme,C=DE" empty_heap
    = Ret (out, h')
    /\ out = "Alice, Acme, DE"%string /\ live h' = [].
Proof.
  assert (Hwf : heap_wf empty_heap) by (intros x []).
  pose proof (parse_and_print_user_id_releases utf8_display EmptyString
                "CN=Alice,O=Acme,C=DE" empty_heap Hwf) as H.
  destruct (parse_and_print_user_id utf8_display EmptyString "CN=Alice,O=Acme,C=DE"
              empty_heap) as [[out h']| |] eqn:E; vm_compute in E; try discriminate E.
  exists out, h'. split; [reflexivity|]. split; [|exact H].
  inversion E. reflexivity.
Defined.

(** X4.  Only the scan of a ['#'] value can leave the string: on a string
    without ['#'] neither [parse_dn] nor [parse_and_print_user_id] reads
    beyond the terminator. *)
Theorem parse_dn_without_hash_in_bounds (conv : string -> string)
    (fp str : string) (h : Heap) :
  all_chars not_hash str = true ->
  parse_dn str h <> OutOfBounds
  /\ parse_and_print_user_id conv fp str h <> OutOfBounds.
Proof.
  intros Hs. pose proof (parse_dn_in_bounds str h Hs) as Hp. split; [exact Hp|].
  destruct str as [|c r]; [discriminate|].
  rewrite parse_and_print_user_id_cases.
  destruct (c =? "<"); [destruct (strchr r ">"); discriminate|].
  destruct (c =? "("); [discriminate|].
  destruct (negb (isalnum c)); [discriminate|].
  destruct (parse_dn (String c r) h) as [[[[a dn]|] h']| |]; cbn [bind];
    first [discriminate | contradiction].
Qed.

Lemma parse_dn_without_hash_in_bounds_witness :
  parse_dn "CN=\zz" empty_heap <> OutOfBounds
  /\ parse_and_print_user_id utf8_display EmptyString "CN=\zz" empty_heap
     <> OutOfBounds.
Proof.
  exact (parse_dn_without_hash_in_bounds utf8_display EmptyString "CN=\zz"
           empty_heap eq_refl).
Defined.





(** X6.  A user id that starts with a letter or a digit and holds no ['=']
    at all is no DN: the only thing written is the placeholder for an
    invalid DN. *)
Theorem parse_and_print_user_id_not_a_dn (conv : string -> string)
    (fp : string) (c : ascii) (r : string) (h : Heap) :
  isalnum c = true ->
  all_chars not_equals r = true ->
  exists h',
    parse_and_print_user_id conv fp (String c r) h
    = Ret ((fp ++ "[Can't display this user ID (invalid DN)]")%string, h').
Proof.
  intros Hc Hr. rewrite parse_and_print_user_id_cases.
  assert (E1 : (c =? "<") = false).
  { destruct (c =? "<") eqn:E; [|reflexivity].
    apply Ascii.eqb_eq in E. subst c. discriminate Hc. }
  assert (E2 : (c =? "(") = false).
  { destruct (c =? "(") eqn:E; [|reflexivity].
    apply Ascii.eqb_eq in E. subst c. discriminate Hc. }
  assert (E3 : (c =? " ") = false).
  { destruct (c =? " ") eqn:E; [|reflexivity].
    apply Ascii.eqb_eq in E. subst c. discriminate Hc. }
  rewrite E1, E2, Hc. cbn [negb].
  unfold parse_dn. cbn [mutt_mem_malloc String.length parse_dn_loop skip_spaces].
  rewrite E3. cbn [Nat.leb length]. unfold parse_dn_part.
  pose proof (skip_type_no_equals r Hr) as Hk.
  destruct (skip_type r) as [m e]. cbn [snd] in Hk. subst e.
  cbn [bind]. eexists. reflexivity.
Qed.

Lemma parse_and_print_user_id_not_a_dn_witness :
  exists h',
    parse_and_print_user_id utf8_display EmptyString "Alice <alice@example.org>"
      empty_heap
    = Ret ("[Can't display this user ID (invalid DN)]"%string, h').
Proof.
  exact (parse_and_print_user_id_not_a_dn utf8_display EmptyString "A"
           "lice <alice@example.org>" empty_heap eq_refl eq_refl).
Defined.

(** X7.  The two passes over a quoted string fit together: whenever the
    first pass accepts the string and counts [n] bytes, the second pass
    stores exactly [n] bytes, so that the buffer allocated for [n + 1] is
    filled to the byte, stops at the character where the first pass stopped
    and never reads outside the string; what it stores is the decoded
    value. *)
Theorem quoted_fill_exact (s t : string) (n : nat) :
  quoted_len s = Some (n, t) ->
  exists v, quoted_fill n s = Ret (v, t)
            /\ String.length v = n
            /\ decode_quoted s = Some (v, t).
Proof.
  intros H. pose proof (quoted_passes s) as Hq. rewrite H in Hq.
  destruct Hq as (v & Hd & Hf & Hl & _). exists v. auto.
Qed.

Lemma quoted_fill_exact_witness :
  exists v, quoted_fill 5 "a\,b\41c;OU=x" = Ret (v, ";OU=x"%string)
            /\ String.length v = 5
            /\ decode_quoted "a\,b\41c;OU=x" = Some (v, ";OU=x"%string).
Proof.
  exact (quoted_fill_exact "a\,b\41c;OU=x" ";OU=x" 5 eq_refl).
Defined.

(** X8.  The scan and the decoding of a ['#'] value fit together: whenever
    the scan ends inside the string after [n] characters, [n] is even and
    the decoding loop stores exactly [n / 2] bytes, the size of the buffer
    less its terminator, without leaving the string. *)
Theorem hex_fill_exact (s e : string) (n : nat) :
  hex_run s = Ret (n, e) ->
  Nat.even n = true
  /\ exists v, hex_fill (n / 2) s = Ret v /\ String.length v = n / 2.
Proof.
  intros H. split.
  - pose proof (hex_run_even s e n H) as Ho.
    rewrite <- Nat.negb_odd, Ho. reflexivity.
  - exact (hex_fill_after_run s e n H).
Qed.

Lemma hex_fill_exact_witness :
  Nat.even 6 = true
  /\ exists v, hex_fill (6 / 2) "4a4B4c,O=x" = Ret v /\ String.length v = 6 / 2.
Proof.
  exact (hex_fill_exact "4a4B4c,O=x" ",O=x" 6 eq_refl).
Defined.

(** ** Further properties of the renderer *)

(** X9.  [print_dn_part] writes the values of all the attributes of the type
    asked for, in the order of the sequence and joined by [" + "], and
    nothing else; it returns true exactly when there is such an
    attribute. *)
Theorem print_dn_part_joined (conv : string -> string) (fp : string)
    (dn : list Attr) (k : string) :
  print_dn_part conv fp dn k
  = ((fp ++ String.concat " + " (map (text_of conv) (group dn k)))%string,
     negb (match group dn k with [] => true | _ => false end)).
Proof.
  rewrite print_dn_part_eq. destruct (group dn k); reflexivity.
Qed.

Lemma str_app_inv_tail (a b c : string) : (a ++ c = b ++ c)%string -> a = b.
Proof.
  revert b. induction a as [|x a IH]; intros [|y b] H; cbn in H.
  - reflexivity.
  - exfalso. apply (f_equal String.length) in H. cbn in H.
    rewrite str_length_app in H. lia.
  - exfalso. apply (f_equal String.length) in H. cbn in H.
    rewrite str_length_app in H. lia.
  - inversion H; subst. f_equal. now apply IH.
Qed.

Lemma known_text_app (conv : string -> string) (dn : list Attr)
    (p1 p2 : list string) :
  known_text conv dn (p1 ++ p2)
  = (known_text conv dn p1 ++ known_text conv dn p2)%string.
Proof.
  induction p1 as [|k p1 IH]; [reflexivity|].
  cbn [app known_text]. now rewrite IH, str_app_assoc.
Qed.

(** X10.  A sequence whose types are all among CN, OU, O, STREET, L, ST, C
    is written group by group in that order: each non-empty group from CN to
    ST as its values joined by [" + "] and followed by [", "], then the
    values of the C group joined by [" + "]; no parenthesis is added.  (So
    the separator after the last group written stays when that group is not
    C.) *)
Theorem print_dn_parts_known_types (conv : string -> string) (dn : list Attr) :
  unknowns dn = [] ->
  render_dn conv dn
  = (known_text conv dn stdpart_front
     ++ String.concat " + " (map (text_of conv) (group dn "C")))%string.
Proof.
  intros Hu. pose proof (print_dn_parts_known conv dn Hu) as H.
  change stdpart with (app stdpart_front ["C"%string]) in H.
  rewrite known_text_app in H. cbn [known_text] in H.
  destruct (group dn "C") as [|a g].
  - cbn [negb sep map String.concat] in *. rewrite !str_app_nil_r in H.
    now rewrite str_app_nil_r.
  - cbn [negb sep] in H. rewrite str_app_nil_r, <- str_app_assoc in H.
    exact (str_app_inv_tail _ _ _ H).
Qed.

Lemma print_dn_parts_known_types_witness :
  render_dn utf8_display
    [mkAttr "C" "DE"; mkAttr "OU" "Eng"; mkAttr "CN" "Alice"; mkAttr "OU" "Sales"]
  = "Alice, Eng + Sales, DE"%string.
Proof.
  exact (print_dn_parts_known_types utf8_display
           [mkAttr "C" "DE"; mkAttr "OU" "Eng"; mkAttr "CN" "Alice"; mkAttr "OU" "Sales"]
           eq_refl).
Defined.

Lemma filter_permutation (keep : Attr -> bool) (dn dn' : list Attr)
    (Hp : Permutation dn dn') :
  Permutation (filter keep dn) (filter keep dn').
Proof.
  rename keep into f.
  induction Hp as [|x l l' _ IH|x y l|l l' l'' _ IH1 _ IH2]; cbn [filter].
  - constructor.
  - destruct (f x); [now constructor|exact IH].
  - destruct (f x), (f y); try apply Permutation_refl. apply perm_swap.
  - exact (Permutation_trans IH1 IH2).
Qed.

Lemma group_at_most_one (dn : list Attr) (k : string) :
  NoDup (map type_of dn) -> length (group dn k) <= 1.
Proof.
  induction dn as [|a dn IH]; intros Hnd; cbn [group filter]; [cbn; lia|].
  fold (group dn k). cbn [map] in Hnd. inversion Hnd as [|x l Hnot Hnd']; subst.
  destruct (strcmp_eq (a_key a) k) eqn:E; [|now apply IH].
  destruct (group dn k) as [|b g] eqn:Eg; [cbn; lia|]. exfalso.
  assert (Hb : In b (group dn k)) by (rewrite Eg; now left).
  apply filter_In in Hb as [Hb Hbk]. apply strcmp_eq_type in E, Hbk.
  apply Hnot. apply in_map_iff. exists b. split; [|exact Hb].
  unfold type_of. congruence.
Qed.

Lemma Permutation_short {A : Type} (l l' : list A) :
  Permutation l l' -> length l <= 1 -> l = l'.
Proof.
  intros Hp Hl. destruct l as [|x [|y l]]; cbn in Hl; try lia.
  - now apply Permutation_nil in Hp.
  - now apply Permutation_length_1_inv in Hp.
Qed.

Lemma group_permutation (dn dn' : list Attr) (k : string) :
  Permutation dn dn' -> NoDup (map type_of dn) -> group dn k = group dn' k.
Proof.
  intros Hp Hnd. apply Permutation_short.
  - now apply filter_permutation.
  - now apply group_at_most_one.
Qed.

(** X11.  The order in which the attributes were parsed does not matter:
    two sequences of known types, no type occurring twice, that hold the
    same attributes in any order are written as the same string. *)
Theorem print_dn_parts_order_independent (conv : string -> string)
    (dn dn' : list Attr) :
  Permutation dn dn' ->
  NoDup (map type_of dn) ->
  unknowns dn = [] ->
  render_dn conv dn = render_dn conv dn'.
Proof.
  intros Hp Hnd Hu.
  assert (Hu' : unknowns dn' = []).
  { apply Permutation_nil. rewrite <- Hu. now apply filter_permutation. }
  pose proof (print_dn_parts_known conv dn Hu) as H.
  pose proof (print_dn_parts_known conv dn' Hu') as H'.
  assert (Hk : known_text conv dn stdpart = known_text conv dn' stdpart).
  { generalize stdpart as parts. induction parts as [|k parts IH]; [reflexivity|].
    cbn [known_text]. now rewrite IH, (group_permutation dn dn' k Hp Hnd). }
  rewrite (group_permutation dn dn' "C" Hp Hnd), Hk, <- H' in H.
  exact (str_app_inv_tail _ _ _ H).
Qed.

Lemma print_dn_parts_order_independent_witness :
  render_dn utf8_display [mkAttr "C" "DE"; mkAttr "O" "Acme"; mkAttr "CN" "Alice"]
  = render_dn utf8_display [mkAttr "CN" "Alice"; mkAttr "C" "DE"; mkAttr "O" "Acme"].
Proof.
  apply print_dn_parts_order_independent.
  - apply Permutation_sym. apply (Permutation_cons_app [mkAttr "C" "DE"; mkAttr "O" "Acme"] []).
    rewrite app_nil_r. apply Permutation_refl.
  - repeat constructor; simpl; intuition discriminate.
  - reflexivity.
Defined.

(** ** The fingerprint lines *)

Lemma cstr_not_nul (s : string) : all_chars not_nul s = true -> cstr s = s.
Proof.
  induction s as [|c s IH]; intros H; [reflexivity|].
  cbn [all_chars] in H. apply andb_true_iff in H as [Hc H].
  unfold not_nul in Hc. apply negb_true_iff in Hc.
  cbn [cstr]. now rewrite Hc, (IH H).
Qed.

Lemma drop_chars_app (p : ascii -> bool) (a b : string) :
  drop_chars p (a ++ b) = (drop_chars p a ++ drop_chars p b)%string.
Proof.
  induction a as [|c a IH]; [reflexivity|]. cbn [String.append drop_chars].
  destruct (p c); cbn [String.append]; now rewrite IH.
Qed.

Lemma drop_chars_none (s : string) :
  all_chars not_fpr_filler s = true -> drop_chars is_fpr_filler s = s.
Proof.
  induction s as [|c s IH]; intros H; [reflexivity|].
  cbn [all_chars] in H. apply andb_true_iff in H as [Hc H].
  unfold not_fpr_filler in Hc. apply negb_true_iff in Hc.
  cbn [drop_chars]. now rewrite Hc, (IH H).
Qed.

Lemma fpr_quads_step (i : nat) (a b c d e : ascii) (r fp : string) :
  fpr_quads i (String a (String b (String c (String d (String e r))))) fp
  = fpr_quads (S i) (String e r)
      (if Nat.eqb i 4
       then putc " " (putc " " (putc d (putc c (putc b (putc a fp)))))
       else putc " " (putc d (putc c (putc b (putc a fp))))).
Proof. reflexivity. Qed.

Lemma fpr_pairs_step (is_pgp : bool) (i : nat) (a b e : ascii) (r fp : string) :
  fpr_pairs is_pgp i (String a (String b (String e r))) fp
  = fpr_pairs is_pgp (S i) (String e r)
      (if is_pgp && Nat.eqb i 7
       then putc " " (putc (if is_pgp then " " else ":") (putc b (putc a fp)))
       else putc (if is_pgp then " " else ":") (putc b (putc a fp))).
Proof. reflexivity. Qed.

Lemma fpr_quads_keeps (s : string) :
  all_chars not_fpr_filler s = true ->
  forall (i : nat) (fp : string),
    (drop_chars is_fpr_filler (fst (fpr_quads i s fp)) ++ snd (fpr_quads i s fp)
     = drop_chars is_fpr_filler fp ++ s)%string
    /\ all_chars not_fpr_filler (snd (fpr_quads i s fp)) = true.
Proof.
  induction s as [s IH] using string_length_ind. intros Hs i fp.
  destruct s as [|a [|b [|c [|d [|e r]]]]]; try (split; [reflexivity|exact Hs]).
  rewrite fpr_quads_step. cbn [all_chars] in Hs.
  apply andb_true_iff in Hs as [Ha Hs]. apply andb_true_iff in Hs as [Hb Hs].
  apply andb_true_iff in Hs as [Hc Hs]. apply andb_true_iff in Hs as [Hd Hr].
  change (all_chars not_fpr_filler (String e r) = true) in Hr.
  unfold not_fpr_filler in Ha, Hb, Hc, Hd. apply negb_true_iff in Ha, Hb, Hc, Hd.
  match goal with
  | |- context [fpr_quads (S i) (String e r) ?f] =>
      destruct (IH (String e r) ltac:(cbn; lia) Hr (S i) f) as [E1 E2];
      split; [rewrite E1|exact E2]
  end.
  unfold putc. destruct (Nat.eqb i 4);
    rewrite ?drop_chars_app, ?str_app_assoc; cbn [String.append drop_chars];
    rewrite Ha, Hb, Hc, Hd; cbn [is_fpr_filler Ascii.eqb Bool.eqb orb String.append];
    reflexivity.
Qed.

Lemma fpr_pairs_keeps (is_pgp : bool) (s : string) :
  all_chars not_fpr_filler s = true ->
  forall (i : nat) (fp : string),
    (drop_chars is_fpr_filler (fst (fpr_pairs is_pgp i s fp))
       ++ snd (fpr_pairs is_pgp i s fp)
     = drop_chars is_fpr_filler fp ++ s)%string
    /\ all_chars not_fpr_filler (snd (fpr_pairs is_pgp i s fp)) = true.
Proof.
  induction s as [|a|a b r IH] using string_pair_ind; intros Hs i fp;
    try (split; [reflexivity|exact Hs]).
  destruct r as [|e r]; [split; [reflexivity|exact Hs]|].
  rewrite fpr_pairs_step. cbn [all_chars] in Hs.
  apply andb_true_iff in Hs as [Ha Hs]. apply andb_true_iff in Hs as [Hb Hr].
  change (all_chars not_fpr_filler (String e r) = true) in Hr.
  unfold not_fpr_filler in Ha, Hb. apply negb_true_iff in Ha, Hb.
  match goal with
  | |- context [fpr_pairs is_pgp (S i) (String e r) ?f] =>
      destruct (IH Hr (S i) f) as [E1 E2]; split; [rewrite E1|exact E2]
  end.
  unfold putc. destruct is_pgp, (Nat.eqb i 7); cbn [andb];
    rewrite ?drop_chars_app, ?str_app_assoc; cbn [String.append drop_chars];
    rewrite Ha, Hb; cbn [is_fpr_filler Ascii.eqb Bool.eqb orb String.append];
    reflexivity.
Qed.

(** X12.  The fingerprint lines only insert fillers: whatever the protocol
    and the length of the fingerprint, taking the spaces, the colons and the
    line feed out of what is written gives back the fingerprint itself,
    every character once and in order. *)
Theorem fingerprint_only_inserts (is_pgp : bool) (s : string) :
  all_chars not_nul s = true ->
  all_chars not_fpr_filler s = true ->
  drop_chars is_fpr_filler (print_key_info_fingerprint is_pgp s EmptyString) = s.
Proof.
  intros Hn Hs. unfold print_key_info_fingerprint.
  assert (H : forall fp' s',
             (drop_chars is_fpr_filler fp' ++ s' = s)%string ->
             all_chars not_fpr_filler s' = true ->
             cstr s' = s' ->
             drop_chars is_fpr_filler (putc newline (fputs s' fp')) = s).
  { intros fp' s' E Hs' Hc. unfold putc, fputs.
    rewrite !drop_chars_app, Hc, (drop_chars_none s' Hs'), E.
    cbn. now rewrite str_app_nil_r. }
  assert (Hsuffix : forall fp' s',
             (drop_chars is_fpr_filler fp' ++ s' = s)%string -> cstr s' = s').
  { intros fp' s' E. apply cstr_not_nul. rewrite <- E, all_chars_app in Hn.
    now apply andb_true_iff in Hn as [_ Hn]. }
  destruct (is_pgp && Nat.eqb (strlen s) 40).
  - destruct (fpr_quads_keeps s Hs 0 EmptyString) as [E1 E2].
    destruct (fpr_quads 0 s EmptyString) as [fp' s']. cbn [fst snd] in E1, E2.
    cbn [drop_chars String.append] in E1. eauto.
  - destruct (fpr_pairs_keeps is_pgp s Hs 0 EmptyString) as [E1 E2].
    destruct (fpr_pairs is_pgp 0 s EmptyString) as [fp' s']. cbn [fst snd] in E1, E2.
    cbn [drop_chars String.append] in E1. eauto.
Qed.

Lemma fingerprint_only_inserts_witness :
  drop_chars is_fpr_filler
    (print_key_info_fingerprint true "0123456789ABCDEF0123456789ABCDEF01234567"
       EmptyString)
  = "0123456789ABCDEF0123456789ABCDEF01234567"%string.
Proof.
  exact (fingerprint_only_inserts true "0123456789ABCDEF0123456789ABCDEF01234567"
           eq_refl eq_refl).
Defined.

Lemma fpr_quads_rest_all (p : ascii -> bool) (s : string) :
  all_chars p s = true ->
  forall (i : nat) (fp : string), all_chars p (snd (fpr_quads i s fp)) = true.
Proof.
  induction s as [s IH] using string_length_ind. intros Hs i fp.
  destruct s as [|a [|b [|c [|d [|e r]]]]]; try exact Hs.
  rewrite fpr_quads_step. apply IH; [cbn; lia|].
  cbn [all_chars] in Hs. do 4 (apply andb_true_iff in Hs as [_ Hs]). exact Hs.
Qed.

Lemma fpr_pairs_rest_all (p : ascii -> bool) (is_pgp : bool) (s : string) :
  all_chars p s = true ->
  forall (i : nat) (fp : string), all_chars p (snd (fpr_pairs is_pgp i s fp)) = true.
Proof.
  induction s as [|a|a b r IH] using string_pair_ind; intros Hs i fp; try exact Hs.
  destruct r as [|e r]; [exact Hs|].
  rewrite fpr_pairs_step. apply IH.
  cbn [all_chars] in Hs. do 2 (apply andb_true_iff in Hs as [_ Hs]). exact Hs.
Qed.

(** On a fingerprint without NUL the last [fprintf] writes all of what the
    loop left. *)
Lemma print_key_info_fingerprint_eq (is_pgp : bool) (s fp : string) :
  all_chars not_nul s = true ->
  print_key_info_fingerprint is_pgp s fp
  = (let r := if is_pgp && Nat.eqb (String.length s) 40
              then fpr_quads 0 s fp else fpr_pairs is_pgp 0 s fp in
     fst r ++ snd r ++ String newline EmptyString)%string.
Proof.
  intros Hn. unfold print_key_info_fingerprint, strlen. rewrite (cstr_not_nul s Hn).
  cbv zeta.
  destruct (is_pgp && Nat.eqb (String.length s) 40).
  - pose proof (fpr_quads_rest_all not_nul s Hn 0 fp) as Hr.
    destruct (fpr_quads 0 s fp) as [fp' s']. cbn [fst snd] in *.
    unfold putc, fputs. now rewrite (cstr_not_nul s' Hr), str_app_assoc.
  - pose proof (fpr_pairs_rest_all not_nul is_pgp s Hn 0 fp) as Hr.
    destruct (fpr_pairs is_pgp 0 s fp) as [fp' s']. cbn [fst snd] in *.
    unfold putc, fputs. now rewrite (cstr_not_nul s' Hr), str_app_assoc.
Qed.

Lemma fpr_pairs_colons (s : string) :
  forall (i : nat) (fp : string),
    (fst (fpr_pairs false i s fp) ++ snd (fpr_pairs false i s fp)
     = fp ++ String.concat ":" (pairs_of s))%string.
Proof.
  induction s as [|a|a b r IH] using string_pair_ind; intros i fp; try reflexivity.
  destruct r as [|e r]; [reflexivity|].
  rewrite fpr_pairs_step, IH. cbn [andb].
  change (pairs_of (String a (String b (String e r))))
    with (String a (String b EmptyString) :: pairs_of (String e r)).
  destruct (pairs_of (String e r)) as [|x l] eqn:E.
  - destruct r as [|e' [|e'' r']]; discriminate E.
  - rewrite concat_cons2. unfold putc. rewrite !str_app_assoc. reflexivity.
Qed.

(** X13.  The fingerprint of an X.509 certificate is written two characters
    at a time with a colon between the pairs and a line feed at the end; no
    colon follows the last pair, and an odd character left over stands alone
    at the end. *)
Theorem fingerprint_x509_colons (s fp : string) :
  all_chars not_nul s = true ->
  print_key_info_fingerprint false s fp
  = (fp ++ String.concat ":" (pairs_of s) ++ String newline EmptyString)%string.
Proof.
  intros Hn. rewrite (print_key_info_fingerprint_eq false s fp Hn).
  cbn [andb]. cbv zeta. now rewrite <- str_app_assoc, fpr_pairs_colons, str_app_assoc.
Qed.

Lemma fingerprint_x509_colons_witness :
  print_key_info_fingerprint false "A1B2C3D" "Fingerprint: "
  = ("Fingerprint: A1:B2:C3:D" ++ String newline EmptyString)%string.
Proof.
  exact (fingerprint_x509_colons "A1B2C3D" "Fingerprint: " eq_refl).
Defined.

(** X14.  A PGP fingerprint of forty characters is written as ten groups of
    four: the groups are separated by one space, the fifth and the sixth by
    two, and a line feed ends the line. *)
Theorem fingerprint_pgp_forty (s fp : string) :
  String.length s = 40 ->
  all_chars not_nul s = true ->
  print_key_info_fingerprint true s fp
  = (fp ++ String.concat " " (map (quad s) [0; 1; 2; 3; 4])
        ++ "  " ++ String.concat " " (map (quad s) [5; 6; 7; 8; 9])
        ++ String newline EmptyString)%string.
Proof.
  intros Hlen Hn. rewrite (print_key_info_fingerprint_eq true s fp Hn), Hlen.
  cbn [andb Nat.eqb]. cbv zeta. clear Hn.
  do 40 (destruct s as [|? s]; cbn [String.length] in Hlen;
         [discriminate Hlen|apply Nat.succ_inj in Hlen]).
  destruct s; [|discriminate Hlen].
  rewrite !fpr_quads_step. cbn [fpr_quads fst snd Nat.eqb]. unfold putc.
  rewrite !str_app_assoc. reflexivity.
Qed.

Lemma fingerprint_pgp_forty_witness :
  print_key_info_fingerprint true "0123456789ABCDEF0123456789abcdef01234567"
    EmptyString
  = ("0123 4567 89AB CDEF 0123  4567 89ab cdef 0123 4567"
       ++ String newline EmptyString)%string.
Proof.
  exact (fingerprint_pgp_forty "0123456789ABCDEF0123456789abcdef01234567"
           EmptyString eq_refl eq_refl).
Defined.

(** ** The comparison functions of the key table *)

Lemma to_int_u64_small (d : Z) :
  (- 2 ^ 31 <= d < 2 ^ 31)%Z -> to_int (u64 d) = d.
Proof.
  intros H. unfold to_int, u64.
  change (2 ^ 64)%Z with 18446744073709551616%Z.
  change (2 ^ 32)%Z with 4294967296%Z.
  change (2 ^ 31)%Z with 2147483648%Z in *.
  Z.div_mod_to_equations. lia.
Qed.

Lemma sample_cmp_antisym (a b : option string) :
  (0 < sample_cmp a b <-> sample_cmp b a < 0)%Z.
Proof.
  unfold sample_cmp.
  rewrite (String.compare_antisym
             match a with Some s => s | None => EmptyString end
             match b with Some s => s | None => EmptyString end).
  destruct (String.compare match b with Some s => s | None => EmptyString end
              match a with Some s => s | None => EmptyString end);
    cbn; lia.
Qed.

Section CompareFacts.

Variable mutt_istr_cmp : option string -> option string -> Z.
Variable crypt_fpr_or_lkeyid : CryptKeyInfo -> option string.
Variable KEYFLAG_RESTRICTIONS : Z.

Hypothesis istr_antisym :
  forall a b, (0 < mutt_istr_cmp a b <-> mutt_istr_cmp b a < 0)%Z.

Lemma istr_zero (a b : option string) :
  mutt_istr_cmp a b = 0%Z -> mutt_istr_cmp b a = 0%Z.
Proof.
  intros H. pose proof (istr_antisym a b). pose proof (istr_antisym b a). lia.
Qed.

(** Comparing on one string, then on another. *)
Lemma two_strings_asym (a b c d : option string) :
  (if negb (Z.eqb (mutt_istr_cmp a b) 0) then c_bool (Z.gtb (mutt_istr_cmp a b) 0)
   else c_bool (Z.gtb (mutt_istr_cmp c d) 0)) = 1%Z ->
  (if negb (Z.eqb (mutt_istr_cmp b a) 0) then c_bool (Z.gtb (mutt_istr_cmp b a) 0)
   else c_bool (Z.gtb (mutt_istr_cmp d c) 0)) = 0%Z.
Proof.
  pose proof (istr_antisym a b). pose proof (istr_antisym b a).
  pose proof (istr_antisym c d). pose proof (istr_antisym d c).
  unfold c_bool.
  destruct (Z.eqb_spec (mutt_istr_cmp a b) 0), (Z.eqb_spec (mutt_istr_cmp b a) 0);
    cbn [negb];
    destruct (Z.gtb_spec (mutt_istr_cmp a b) 0), (Z.gtb_spec (mutt_istr_cmp b a) 0),
             (Z.gtb_spec (mutt_istr_cmp c d) 0), (Z.gtb_spec (mutt_istr_cmp d c) 0);
    intros; try reflexivity; try discriminate; lia.
Qed.

Lemma one_string_asym (a b : option string) :
  c_bool (Z.gtb (mutt_istr_cmp a b) 0) = 1%Z ->
  c_bool (Z.gtb (mutt_istr_cmp b a) 0) = 0%Z.
Proof.
  pose proof (istr_antisym a b). pose proof (istr_antisym b a). unfold c_bool.
  destruct (Z.gtb_spec (mutt_istr_cmp a b) 0), (Z.gtb_spec (mutt_istr_cmp b a) 0);
    intros; try reflexivity; try discriminate; lia.
Qed.

Lemma address_asym (s t : CryptKeyInfo) :
  crypt_compare_key_address mutt_istr_cmp crypt_fpr_or_lkeyid s t = 1%Z ->
  crypt_compare_key_address mutt_istr_cmp crypt_fpr_or_lkeyid t s = 0%Z.
Proof. apply two_strings_asym. Qed.

Lemma keyid_asym (s t : CryptKeyInfo) :
  crypt_compare_keyid mutt_istr_cmp crypt_fpr_or_lkeyid s t = 1%Z ->
  crypt_compare_keyid mutt_istr_cmp crypt_fpr_or_lkeyid t s = 0%Z.
Proof. apply two_strings_asym. Qed.

Lemma date_asym (s t : CryptKeyInfo) :
  crypt_compare_key_date mutt_istr_cmp s t = 1%Z ->
  crypt_compare_key_date mutt_istr_cmp t s = 0%Z.
Proof.
  unfold crypt_compare_key_date. cbv zeta.
  destruct (Z.gtb_spec (timestamp_or 0 s) (timestamp_or 0 t)),
           (Z.gtb_spec (timestamp_or 0 t) (timestamp_or 0 s)),
           (Z.ltb_spec (timestamp_or 0 s) (timestamp_or 0 t)),
           (Z.ltb_spec (timestamp_or 0 t) (timestamp_or 0 s));
    try lia; try discriminate; try reflexivity.
  apply one_string_asym.
Qed.

Lemma trust_asym (s t : CryptKeyInfo) :
  (0 <= k_validity s < 2 ^ 31)%Z ->
  (0 <= k_validity t < 2 ^ 31)%Z ->
  crypt_compare_key_trust mutt_istr_cmp crypt_fpr_or_lkeyid KEYFLAG_RESTRICTIONS s t
  = 1%Z ->
  crypt_compare_key_trust mutt_istr_cmp crypt_fpr_or_lkeyid KEYFLAG_RESTRICTIONS t s
  = 0%Z.
Proof.
  intros Hs Ht. unfold crypt_compare_key_trust. cbv zeta.
  rewrite !to_int_u64_small by lia.
  set (fs := Z.land (k_flags s) KEYFLAG_RESTRICTIONS).
  set (ft := Z.land (k_flags t) KEYFLAG_RESTRICTIONS).
  set (ls := length_or (k_validity s) s). set (lt := length_or (k_validity t) t).
  set (ds := timestamp_or ls s). set (dt := timestamp_or lt t).
  unfold c_bool at 1 2 3 7 8 9.
  destruct (Z.eqb_spec (fs - ft) 0), (Z.eqb_spec (ft - fs) 0); cbn [negb]; try lia.
  2:{ destruct (Z.gtb_spec (fs - ft) 0), (Z.gtb_spec (ft - fs) 0);
        intros; try reflexivity; try discriminate; lia. }
  destruct (Z.eqb_spec (k_validity t - k_validity s) 0),
           (Z.eqb_spec (k_validity s - k_validity t) 0); cbn [negb]; try lia.
  2:{ destruct (Z.ltb_spec (k_validity t - k_validity s) 0),
               (Z.ltb_spec (k_validity s - k_validity t) 0);
        intros; try reflexivity; try discriminate; lia. }
  destruct (Z.eqb_spec ls lt), (Z.eqb_spec lt ls); cbn [negb]; try lia.
  2:{ destruct (Z.gtb_spec ls lt), (Z.gtb_spec lt ls);
        intros; try reflexivity; try discriminate; lia. }
  destruct (Z.gtb_spec ds dt), (Z.gtb_spec dt ds), (Z.ltb_spec ds dt),
           (Z.ltb_spec dt ds); try lia; try discriminate; try reflexivity.
  apply two_strings_asym.
Qed.

End CompareFacts.

(** X15.  None of the four comparison functions can say both that [s] sorts
    after [t] and that [t] sorts after [s]: with a case-insensitive string
    comparison that changes sign when its arguments are exchanged, and
    validities that fit an [int], a result 1 for [(s, t)] means the result 0
    for [(t, s)]. *)
Theorem crypt_compare_asymmetric
    (mutt_istr_cmp : option string -> option string -> Z)
    (crypt_fpr_or_lkeyid : CryptKeyInfo -> option string)
    (KEYFLAG_RESTRICTIONS : Z) (s t : CryptKeyInfo) :
  (forall a b, (0 < mutt_istr_cmp a b <-> mutt_istr_cmp b a < 0)%Z) ->
  (0 <= k_validity s < 2 ^ 31)%Z ->
  (0 <= k_validity t < 2 ^ 31)%Z ->
  (crypt_compare_key_address mutt_istr_cmp crypt_fpr_or_lkeyid s t = 1%Z ->
   crypt_compare_key_address mutt_istr_cmp crypt_fpr_or_lkeyid t s = 0%Z)
  /\ (crypt_compare_keyid mutt_istr_cmp crypt_fpr_or_lkeyid s t = 1%Z ->
      crypt_compare_keyid mutt_istr_cmp crypt_fpr_or_lkeyid t s = 0%Z)
  /\ (crypt_compare_key_date mutt_istr_cmp s t = 1%Z ->
      crypt_compare_key_date mutt_istr_cmp t s = 0%Z)
  /\ (crypt_compare_key_trust mutt_istr_cmp crypt_fpr_or_lkeyid
        KEYFLAG_RESTRICTIONS s t = 1%Z ->
      crypt_compare_key_trust mutt_istr_cmp crypt_fpr_or_lkeyid
        KEYFLAG_RESTRICTIONS t s = 0%Z).
Proof.
  intros Hanti Hs Ht. split; [|split; [|split]].
  - now apply address_asym.
  - now apply keyid_asym.
  - now apply date_asym.
  - now apply trust_asym.
Qed.

Lemma crypt_compare_asymmetric_witness :
  crypt_compare_key_address sample_cmp k_uid sample_key_alice sample_key_bob = 0%Z
  /\ crypt_compare_keyid sample_cmp k_uid sample_key_alice sample_key_bob = 0%Z
  /\ crypt_compare_key_date sample_cmp sample_key_alice sample_key_bob = 0%Z
  /\ crypt_compare_key_trust sample_cmp k_uid 1792 sample_key_alice sample_key_bob
     = 0%Z.
Proof.
  destruct (crypt_compare_asymmetric sample_cmp k_uid 1792
              sample_key_bob sample_key_alice sample_cmp_antisym)
    as (H1 & H2 & H3 & H4); [cbn; lia|cbn; lia|].
  split; [apply H1; reflexivity|].
  split; [apply H2; reflexivity|].
  split; [apply H3; reflexivity|apply H4; reflexivity].
Defined.

(** X16.  A key compared with itself: with a string comparison that gives 0
    on equal arguments, each of the four comparison functions returns 0, so
    each [..._qsort] function returns 0 in ascending order and, because the
    result is negated with [!], 1 when [SORT_REVERSE] is set in
    [pgp_sort_keys]. *)
Theorem crypt_compare_same_key
    (mutt_istr_cmp : option string -> option string -> Z)
    (crypt_fpr_or_lkeyid : CryptKeyInfo -> option string)
    (KEYFLAG_RESTRICTIONS SORT_REVERSE c_pgp_sort_keys : Z) (k : CryptKeyInfo) :
  (forall a, mutt_istr_cmp a a = 0%Z) ->
  let reversed := negb (Z.eqb (Z.land c_pgp_sort_keys SORT_REVERSE) 0) in
  crypt_compare_key_address mutt_istr_cmp crypt_fpr_or_lkeyid k k = 0%Z
  /\ crypt_compare_keyid mutt_istr_cmp crypt_fpr_or_lkeyid k k = 0%Z
  /\ crypt_compare_key_date mutt_istr_cmp k k = 0%Z
  /\ crypt_compare_key_trust mutt_istr_cmp crypt_fpr_or_lkeyid KEYFLAG_RESTRICTIONS k k
     = 0%Z
  /\ crypt_compare_address_qsort mutt_istr_cmp crypt_fpr_or_lkeyid SORT_REVERSE
       c_pgp_sort_keys k k = c_bool reversed
  /\ crypt_crypt_compare_keyid_qsort mutt_istr_cmp crypt_fpr_or_lkeyid SORT_REVERSE
       c_pgp_sort_keys k k = c_bool reversed
  /\ crypt_compare_date_qsort mutt_istr_cmp SORT_REVERSE c_pgp_sort_keys k k
     = c_bool reversed
  /\ crypt_compare_trust_qsort mutt_istr_cmp crypt_fpr_or_lkeyid KEYFLAG_RESTRICTIONS
       SORT_REVERSE c_pgp_sort_keys k k = c_bool reversed.
Proof.
  intros Hrefl reversed.
  assert (Ha : crypt_compare_key_address mutt_istr_cmp crypt_fpr_or_lkeyid k k = 0%Z).
  { unfold crypt_compare_key_address. now rewrite !Hrefl. }
  assert (Hk : crypt_compare_keyid mutt_istr_cmp crypt_fpr_or_lkeyid k k = 0%Z).
  { unfold crypt_compare_keyid. now rewrite !Hrefl. }
  assert (Hd : crypt_compare_key_date mutt_istr_cmp k k = 0%Z).
  { unfold crypt_compare_key_date. cbv zeta.
    now rewrite Z.gtb_ltb, !Z.ltb_irrefl, Hrefl. }
  assert (Ht : crypt_compare_key_trust mutt_istr_cmp crypt_fpr_or_lkeyid
                 KEYFLAG_RESTRICTIONS k k = 0%Z).
  { unfold crypt_compare_key_trust. cbv zeta.
    rewrite !Z.sub_diag, !Z.eqb_refl, !Hrefl. cbn [negb].
    rewrite !Z.gtb_ltb, !Z.ltb_irrefl. reflexivity. }
  unfold crypt_compare_address_qsort, crypt_crypt_compare_keyid_qsort,
    crypt_compare_date_qsort, crypt_compare_trust_qsort, sort_order.
  fold reversed. rewrite Ha, Hk, Hd, Ht.
  repeat split; destruct reversed; reflexivity.
Qed.

Lemma crypt_compare_same_key_witness :
  crypt_compare_key_trust sample_cmp k_uid 1792 sample_key_bob sample_key_bob = 0%Z
  /\ crypt_compare_trust_qsort sample_cmp k_uid 1792 256 (256 + 3)
       sample_key_bob sample_key_bob = 1%Z.
Proof.
  assert (Hrefl : forall a, sample_cmp a a = 0%Z).
  { intros a. pose proof (sample_cmp_antisym a a). lia. }
  destruct (crypt_compare_same_key sample_cmp k_uid 1792 256 (256 + 3)
              sample_key_bob Hrefl) as (_ & _ & _ & H4 & _ & _ & _ & H8).
  split; [exact H4|exact H8].
Defined.

(** X17.  The comparison functions and the [..._qsort] functions return 0
    or 1 and nothing else; in particular none of them ever returns a
    negative number. *)
Theorem crypt_compare_zero_or_one
    (mutt_istr_cmp : option string -> option string -> Z)
    (crypt_fpr_or_lkeyid : CryptKeyInfo -> option string)
    (KEYFLAG_RESTRICTIONS SORT_REVERSE c_pgp_sort_keys : Z) (s t : CryptKeyInfo) :
  let ok x := x = 0%Z \/ x = 1%Z in
  ok (crypt_compare_key_address mutt_istr_cmp crypt_fpr_or_lkeyid s t)
  /\ ok (crypt_compare_keyid mutt_istr_cmp crypt_fpr_or_lkeyid s t)
  /\ ok (crypt_compare_key_date mutt_istr_cmp s t)
  /\ ok (crypt_compare_key_trust mutt_istr_cmp crypt_fpr_or_lkeyid
           KEYFLAG_RESTRICTIONS s t)
  /\ ok (crypt_compare_address_qsort mutt_istr_cmp crypt_fpr_or_lkeyid SORT_REVERSE
           c_pgp_sort_keys s t)
  /\ ok (crypt_crypt_compare_keyid_qsort mutt_istr_cmp crypt_fpr_or_lkeyid
           SORT_REVERSE c_pgp_sort_keys s t)
  /\ ok (crypt_compare_date_qsort mutt_istr_cmp SORT_REVERSE c_pgp_sort_keys s t)
  /\ ok (crypt_compare_trust_qsort mutt_istr_cmp crypt_fpr_or_lkeyid
           KEYFLAG_RESTRICTIONS SORT_REVERSE c_pgp_sort_keys s t).
Proof.
  intros ok. subst ok.
  unfold crypt_compare_address_qsort, crypt_crypt_compare_keyid_qsort,
    crypt_compare_date_qsort, crypt_compare_trust_qsort, sort_order,
    crypt_compare_key_address, crypt_compare_keyid, crypt_compare_key_date,
    crypt_compare_key_trust, c_not, c_bool.
  cbv zeta.
  repeat split;
    repeat match goal with
           | |- context [if ?b then _ else _] => destruct b
           end; auto.
Qed.

(** ** The array of alias views *)

Lemma count_visible_from_shift (arr : AliasViewArray) (count : Z) :
  count_visible_from count arr = (count + count_visible_from 0 arr)%Z.
Proof.
  revert count. induction arr as [|avp arr IH]; intros count; cbn [count_visible_from].
  - lia.
  - rewrite IH, (IH (if av_is_visible avp then (0 + 1)%Z else 0%Z)).
    destruct (av_is_visible avp); lia.
Qed.

Lemma count_visible_app (a b : AliasViewArray) :
  alias_array_count_visible (a ++ b)%list
  = (alias_array_count_visible a + alias_array_count_visible b)%Z.
Proof.
  unfold alias_array_count_visible. induction a as [|avp a IH]; cbn [app count_visible_from].
  - lia.
  - rewrite count_visible_from_shift, IH,
      (count_visible_from_shift a (if av_is_visible avp then (0 + 1)%Z else 0%Z)).
    lia.
Qed.

(** X18.  Filling an array.  Aliases added one after the other to an empty
    array give one view per alias, in the order of the additions; the view
    at position [i] wraps the [i]-th alias and has [orig_seq = i]; every
    view is visible, so the number of visible views is the number of
    aliases added. *)
Theorem alias_array_filled (aliases : list addr) :
  let arr := add_all [] aliases in
  map av_alias arr = aliases
  /\ map av_orig_seq arr = map Z.of_nat (seq 0 (length aliases))
  /\ alias_array_count_visible arr = Z.of_nat (length aliases)
  /\ ARRAY_SIZE arr = Z.of_nat (length aliases).
Proof.
  cbv zeta.
  assert (H : forall arr,
             map av_alias (add_all arr aliases) = (map av_alias arr ++ aliases)%list
             /\ map av_orig_seq (add_all arr aliases)
                = (map av_orig_seq arr
                     ++ map Z.of_nat (seq (length arr) (length aliases)))%list
             /\ alias_array_count_visible (add_all arr aliases)
                = (alias_array_count_visible arr + Z.of_nat (length aliases))%Z
             /\ length (add_all arr aliases) = length arr + length aliases).
  { induction aliases as [|al rest IH]; intros arr; cbn [add_all].
    - cbn [length seq map]. rewrite !app_nil_r. repeat split; lia.
    - cbn [alias_array_alias_add snd]. unfold ARRAY_ADD, ARRAY_SIZE.
      destruct (IH (arr ++ [mkAliasView 0 (Z.of_nat (length arr)) false false true al])%list)
        as (H1 & H2 & H3 & H4).
      rewrite H1, H2, H3, H4. rewrite !map_app, count_visible_app, length_app.
      cbn [map length seq av_alias av_orig_seq]. rewrite <- !app_assoc.
      cbn [app]. replace (length arr + 1) with (S (length arr)) by lia.
      repeat split; try reflexivity; try lia.
      unfold alias_array_count_visible. cbn. lia. }
  destruct (H []) as (H1 & H2 & H3 & H4). unfold ARRAY_SIZE.
  rewrite H1, H2, H3, H4. cbn. repeat split; lia.
Qed.

Lemma remove_first_view_absent (al : addr) (arr : AliasViewArray) :
  ~ In al (map av_alias arr) -> remove_first_view al arr = arr.
Proof.
  induction arr as [|avp arr IH]; intros Hn; [reflexivity|].
  cbn [remove_first_view]. cbn [map In] in Hn.
  destruct (Nat.eqb_spec (av_alias avp) al) as [E|E]; [tauto|].
  cbn [negb]. rewrite IH; tauto.
Qed.

Lemma remove_first_view_added (al : addr) (n : Z) (arr : AliasViewArray) :
  ~ In al (map av_alias arr) ->
  remove_first_view al (arr ++ [mkAliasView 0 n false false true al])%list = arr.
Proof.
  induction arr as [|avp arr IH]; intros Hn; cbn [app remove_first_view av_alias].
  - now rewrite Nat.eqb_refl.
  - cbn [map In] in Hn.
    destruct (Nat.eqb_spec (av_alias avp) al) as [E|E]; [tauto|]. cbn [negb].
    f_equal. apply IH. tauto.
Qed.

(** X19.  Adding an alias that the array does not hold yet and deleting it
    again gives back the array as it was, and the delete returns its
    size. *)
Theorem alias_array_add_delete (arr : AliasViewArray) (al : addr) :
  ~ In al (map av_alias arr) ->
  alias_array_alias_delete (snd (alias_array_alias_add (Some arr) (Some al))) (Some al)
  = (ARRAY_SIZE arr, Some arr).
Proof.
  intros Hn. cbn [alias_array_alias_add snd alias_array_alias_delete]. unfold ARRAY_ADD.
  now rewrite (remove_first_view_added al (ARRAY_SIZE arr) arr Hn).
Qed.

Lemma alias_array_add_delete_witness :
  alias_array_alias_delete
    (snd (alias_array_alias_add (Some (add_all [] [7; 9])) (Some 4))) (Some 4)
  = (2%Z, Some (add_all [] [7; 9])).
Proof.
  apply (alias_array_add_delete (add_all [] [7; 9]) 4).
  simpl. intuition discriminate.
Defined.

(** X20.  Deleting an alias takes out one view of it at most, the first one,
    and touches no view of another alias: the views of the other aliases
    stay as they are and in order, the views of the alias are those from the
    second one on, and an array that holds no view of the alias is left as
    it is. *)
Theorem alias_array_delete_one (arr : AliasViewArray) (al : addr) :
  let arr' := remove_first_view al arr in
  alias_array_alias_delete (Some arr) (Some al) = (ARRAY_SIZE arr', Some arr')
  /\ filter (fun v => negb (Nat.eqb (av_alias v) al)) arr'
     = filter (fun v => negb (Nat.eqb (av_alias v) al)) arr
  /\ filter (fun v => Nat.eqb (av_alias v) al) arr'
     = tl (filter (fun v => Nat.eqb (av_alias v) al) arr)
  /\ (~ In al (map av_alias arr) -> arr' = arr).
Proof.
  cbv zeta. split; [reflexivity|]. split; [|split].
  - induction arr as [|avp arr IH]; [reflexivity|]. cbn [remove_first_view filter].
    destruct (Nat.eqb (av_alias avp) al) eqn:E; cbn [negb]; [reflexivity|].
    cbn [filter]. rewrite E. cbn [negb]. now rewrite IH.
  - induction arr as [|avp arr IH]; [reflexivity|]. cbn [remove_first_view filter].
    destruct (Nat.eqb (av_alias avp) al) eqn:E; cbn [negb tl]; [reflexivity|].
    cbn [filter]. now rewrite E.
  - apply remove_first_view_absent.
Qed.

(** ** The date format of crypt_format_str *)






Lemma datefmt_copy_format (fmt : string) :
  is_datefmt fmt = true ->
  forall (t : string) (len : Z) (out : string),
    (Z.of_nat (String.length fmt) <= len)%Z ->
    datefmt_copy (fmt ++ t) len out
    = datefmt_copy t (len - Z.of_nat (String.length fmt)) (out ++ fmt).
Proof.
  induction fmt as [fmt IH] using string_length_ind. intros Hf t len out Hlen.
  destruct fmt as [|c r].
  - cbn [String.append String.length Z.of_nat]. now rewrite Z.sub_0_r, str_app_nil_r.
  - cbn [is_datefmt] in Hf. cbn [String.append].
    cbn [String.length] in Hlen.
    cbn [datefmt_copy].
    destruct (Z.gtb_spec len 0); [|lia]. cbn [negb].
    destruct (c =? "%") eqn:Ep.
    + apply Ascii.eqb_eq in Ep. subst c. cbn [Ascii.eqb Bool.eqb].
      destruct r as [|e r2]; [discriminate Hf|].
      apply andb_true_iff in Hf as [_ Hf].
      cbn [String.length] in Hlen.
      destruct (Z.geb_spec len 2); [|lia]. cbn [String.append].
      rewrite (IH r2 ltac:(cbn; lia) Hf t (len - 2)%Z) by lia.
      unfold putc. rewrite !str_app_assoc. cbn [String.append String.length].
      f_equal. lia.
    + apply andb_true_iff in Hf as [Hc Hf]. apply andb_true_iff in Hc as [_ Hc].
      apply negb_true_iff in Hc. rewrite Hc.
      rewrite (IH r ltac:(cbn; lia) Hf t (len - 1)%Z) by lia.
      unfold putc. rewrite !str_app_assoc. cbn [String.append String.length].
      f_equal. lia.
Qed.

Lemma is_datefmt_not_nul (fmt : string) :
  is_datefmt fmt = true -> all_chars not_nul fmt = true.
Proof.
  induction fmt as [fmt IH] using string_length_ind. intros Hf.
  destruct fmt as [|c r]; [reflexivity|]. cbn [is_datefmt] in Hf.
  destruct (c =? "%") eqn:Ep.
  - apply Ascii.eqb_eq in Ep. subst c. destruct r as [|e r2]; [discriminate Hf|].
    apply andb_true_iff in Hf as [He Hf]. cbn [all_chars]. rewrite He.
    now rewrite (IH r2 ltac:(cbn; lia) Hf).
  - apply andb_true_iff in Hf as [Hc Hf]. apply andb_true_iff in Hc as [Hc _].
    cbn [all_chars]. rewrite Hc. now rewrite (IH r ltac:(cbn; lia) Hf).
Qed.

(** X22.  A bracketed date format.  When the format in front of the closing
    bracket is shorter than [buflen - 1], it is handed to [strftime] as it
    is and the returned pointer is just behind the bracket; a leading ['!']
    is taken off and switches the locale off.  When the format is exactly
    [buflen - 1] characters long it is copied as well, but the returned
    pointer is [src] itself: the bracketed part is not stepped over. *)
Theorem datefmt_read_bracket (buflen : Z) (fmt rest : string) :
  is_datefmt fmt = true ->
  (peek fmt =? "!") = false ->
  (Z.of_nat (String.length fmt) <= buflen - 1 < 2 ^ 64)%Z ->
  let fits := Z.ltb (Z.of_nat (String.length fmt)) (buflen - 1) in
  datefmt_read buflen (fmt ++ String "]" rest)
  = Ret (fmt, true, Some (if fits then rest else (fmt ++ String "]" rest)%string))
  /\ datefmt_read buflen (String "!" (fmt ++ String "]" rest))
     = Ret (fmt, false,
            Some (if fits then rest else String "!" (fmt ++ String "]" rest))).
Proof.
  intros Hf Hbang Hlen fits.
  assert (Hu : u64 (buflen - 1) = (buflen - 1)%Z).
  { unfold u64. apply Z.mod_small. lia. }
  assert (Hp : (peek (fmt ++ String "]" rest) =? "!") = false).
  { destruct fmt; [reflexivity|exact Hbang]. }
  assert (Hcopy : datefmt_copy (fmt ++ String "]" rest) (buflen - 1) EmptyString
                  = Ret (fmt, (buflen - 1 - Z.of_nat (String.length fmt))%Z,
                         Some (String "]" rest))).
  { rewrite (datefmt_copy_format fmt Hf) by lia. cbn [String.append datefmt_copy].
    destruct (Z.gtb (buflen - 1 - Z.of_nat (String.length fmt)) 0); reflexivity. }
  assert (Hfits : Z.gtb (buflen - 1 - Z.of_nat (String.length fmt)) 0 = fits).
  { subst fits. destruct (Z.gtb_spec (buflen - 1 - Z.of_nat (String.length fmt)) 0),
      (Z.ltb_spec (Z.of_nat (String.length fmt)) (buflen - 1)); try reflexivity; lia. }
  unfold datefmt_read. cbv zeta. rewrite Hu, Hp. cbn [peek next Ascii.eqb Bool.eqb negb].
  rewrite Hcopy. cbn [bind]. rewrite Hfits, (cstr_not_nul fmt (is_datefmt_not_nul fmt Hf)).
  split; destruct fits; reflexivity.
Qed.

Lemma datefmt_read_bracket_witness :
  datefmt_read 128 "%Y-%m-%d] %u" = Ret ("%Y-%m-%d"%string, true, Some " %u"%string)
  /\ datefmt_read 128 "!%Y-%m-%d] %u"
     = Ret ("%Y-%m-%d"%string, false, Some " %u"%string).
Proof.
  exact (datefmt_read_bracket 128 "%Y-%m-%d" " %u" eq_refl eq_refl
           ltac:(cbn; lia)).
Defined.
